(** * openslides.motion.models: motions, their versions, supporters and polls

    A shallow embedding of [src/openslides/motion/models.py].  The Django
    tables are lists of rows in insertion order, model instances are cells of
    an object store addressed by position (so that two names of one Python
    object are one address), and every method of [Motion] is a computation in
    a state-and-exception monad over the database, the object store and the
    motion instance [self]. *)

From stdpp Require Import base list strings option numbers sorting.

Open Scope string_scope.
Open Scope list_scope.
Open Scope nat_scope.

(** ** Python values and exceptions *)

(** A value of one of the attributes [title], [text], [reason]: a string or
    Python's [None]. *)
Definition Value : Type := option string.

(** What [MotionVersion.version_number] returns: an integer or a string. *)
Inductive PyVal : Type :=
| PyInt (n : nat)
| PyStr (s : string).

(** The exceptions the module raises or lets through.  [Dangling] is not a
    Python exception: it marks a read of an address that was never allocated,
    which no store built by the methods below contains. *)
Inductive Exn : Type :=
| WorkflowError
| IndexError
| ValueError
| AttributeError
| AssertionError
| IntegrityError
| Dangling.

Inductive Res (A : Type) : Type :=
| Ok (a : A)
| Raise (e : Exn).
Arguments Ok {A} a.
Arguments Raise {A} e.

Global Instance Exn_eq_dec : EqDecision Exn.
Proof. solve_decision. Defined.

(** ** The workflow registry ([from .workflow import get_state, State,
    WorkflowError]) and the configuration ([openslides.config.models.config]).

    Neither module is part of the sources at hand; the methods below use them
    through this interface only.  [get_state tok = None] stands for
    [get_state(tok)] raising [WorkflowError].  Equality on [State] is what
    Python's [in] tests on the elements of [next_states]. *)
Module workflow.
Class Registry : Type := {
  State : Type;
  State_eq_dec :: EqDecision State;
  get_state : string -> option State;
  id : State -> string;
  name : State -> string;
  support : State -> bool;
  poll : State -> bool;
  next_states : State -> list State
}.
End workflow.

Global Existing Instance workflow.State_eq_dec.

(** ** The tables *)

Definition Person : Type := string.

(** Row of [Motion]; the columns [identifier], [category], [master] and
    [permitted_version] are written by no method of the module. *)
Record MotionRow : Type := {
  mr_id : nat;
  mr_state_id : string
}.

(** Row of [MotionVersion]: [title] and [text] are NOT NULL columns, [reason]
    is [null=True]. *)
Record VersionRow : Type := {
  vr_id : nat;
  vr_motion : nat;
  vr_title : Value;
  vr_text : Value;
  vr_reason : Value
}.

Record SupporterRow : Type := {
  sr_id : nat;
  sr_person : Person;
  sr_motion : nat
}.

Record PollRow : Type := {
  pr_id : nat;
  pr_motion : nat;
  pr_poll_number : nat
}.

Record OptionRow : Type := {
  or_id : nat;
  or_poll : nat
}.

Record DB : Type := {
  motions : list MotionRow;
  versions : list VersionRow;
  supporters : list SupporterRow;
  polls : list PollRow;
  options : list OptionRow
}.

Definition empty_db : DB :=
  {| motions := []; versions := []; supporters := []; polls := []; options := [] |}.

(** The primary key an INSERT assigns: one more than the greatest key of the
    table (no method of the module deletes a motion, a version or a poll). *)
Definition next_id (ids : list nat) : nat := S (max_list ids).

(** ** Model instances *)

(** An instance of [MotionVersion]; [mv_motion_id] is the foreign key the
    instance holds, captured when [motion] is assigned. *)
Record MotionVersion : Type := {
  mv_pk : option nat;
  mv_motion_id : option nat;
  mv_title : Value;
  mv_text : Value;
  mv_reason : Value
}.

(** Addresses of the object store. *)
Abbreviation addr := nat (only parsing).

(** An instance of [Motion].  The attributes [_title], [_text], [_reason],
    [_new_version] and [_version] exist or not ([hasattr]): [None] is an
    absent attribute, so a staged [reason] of Python's [None] is
    [Some None]. *)
Record Motion : Type := {
  pk : option nat;
  state_id : string;
  _title : option Value;
  _text : option Value;
  _reason : option Value;
  _new_version : option addr;
  _version : option addr
}.

(** [Motion()], not yet saved. *)
Definition Motion_init : Motion :=
  {| pk := None; state_id := ""; _title := None; _text := None;
     _reason := None; _new_version := None; _version := None |}.

(** [MotionVersion(motion=m)]: the field defaults of Django ([""] for a
    NOT NULL text column, [None] for a nullable one). *)
Definition MotionVersion_init (motion : Motion) : MotionVersion :=
  {| mv_pk := None; mv_motion_id := pk motion;
     mv_title := Some ""; mv_text := Some ""; mv_reason := None |}.

(** The instance a query builds from a row. *)
Definition instance_of_row (r : VersionRow) : MotionVersion :=
  {| mv_pk := Some (vr_id r); mv_motion_id := Some (vr_motion r);
     mv_title := vr_title r; mv_text := vr_text r; mv_reason := vr_reason r |}.

(** The names the loops of [Motion.save] run over. *)
Inductive attr : Type := Title | Text | Reason.

Definition getattr_version (a : attr) (v : MotionVersion) : Value :=
  match a with
  | Title => mv_title v
  | Text => mv_text v
  | Reason => mv_reason v
  end.

Definition setattr_version (a : attr) (x : Value) (v : MotionVersion) : MotionVersion :=
  match a with
  | Title => {| mv_pk := mv_pk v; mv_motion_id := mv_motion_id v;
                mv_title := x; mv_text := mv_text v; mv_reason := mv_reason v |}
  | Text => {| mv_pk := mv_pk v; mv_motion_id := mv_motion_id v;
               mv_title := mv_title v; mv_text := x; mv_reason := mv_reason v |}
  | Reason => {| mv_pk := mv_pk v; mv_motion_id := mv_motion_id v;
                 mv_title := mv_title v; mv_text := mv_text v; mv_reason := x |}
  end.

(** [getattr(self, '_%s' % attr)], [None] when it raises [AttributeError]. *)
Definition staged (a : attr) (m : Motion) : option Value :=
  match a with
  | Title => _title m
  | Text => _text m
  | Reason => _reason m
  end.

Definition set_staged (a : attr) (x : option Value) (m : Motion) : Motion :=
  match a with
  | Title => {| pk := pk m; state_id := state_id m; _title := x; _text := _text m;
                _reason := _reason m; _new_version := _new_version m;
                _version := _version m |}
  | Text => {| pk := pk m; state_id := state_id m; _title := _title m; _text := x;
               _reason := _reason m; _new_version := _new_version m;
               _version := _version m |}
  | Reason => {| pk := pk m; state_id := state_id m; _title := _title m;
                 _text := _text m; _reason := x; _new_version := _new_version m;
                 _version := _version m |}
  end.

Definition with_pk (i : option nat) (m : Motion) : Motion :=
  {| pk := i; state_id := state_id m; _title := _title m; _text := _text m;
     _reason := _reason m; _new_version := _new_version m; _version := _version m |}.

Definition with_state_id (s : string) (m : Motion) : Motion :=
  {| pk := pk m; state_id := s; _title := _title m; _text := _text m;
     _reason := _reason m; _new_version := _new_version m; _version := _version m |}.

Definition with_new_version (a : option addr) (m : Motion) : Motion :=
  {| pk := pk m; state_id := state_id m; _title := _title m; _text := _text m;
     _reason := _reason m; _new_version := a; _version := _version m |}.

Definition with_version (a : option addr) (m : Motion) : Motion :=
  {| pk := pk m; state_id := state_id m; _title := _title m; _text := _text m;
     _reason := _reason m; _new_version := _new_version m; _version := a |}.

(** ** The store and the monad *)

Record store : Type := {
  db : DB;
  heap : list MotionVersion;
  self : Motion
}.

Definition with_db (d : DB) (s : store) : store :=
  {| db := d; heap := heap s; self := self s |}.
Definition with_heap (h : list MotionVersion) (s : store) : store :=
  {| db := db s; heap := h; self := self s |}.
Definition with_self (m : Motion) (s : store) : store :=
  {| db := db s; heap := heap s; self := m |}.

(** A method: it returns or raises, and leaves a store either way (an
    exception undoes nothing). *)
Definition M (A : Type) : Type := store -> Res A * store.

Global Instance M_ret : MRet M := fun A a s => (Ok a, s).
Global Instance M_bind : MBind M := fun A B f m s =>
  match m s with
  | (Ok a, s') => f a s'
  | (Raise e, s') => (Raise e, s')
  end.

Definition raise {A} (e : Exn) : M A := fun s => (Raise e, s).
Definition gets {A} (f : store -> A) : M A := fun s => (Ok (f s), s).
Definition modify (f : store -> store) : M unit := fun s => (Ok tt, f s).
Definition modify_self (f : Motion -> Motion) : M unit :=
  modify (fun s => with_self (f (self s)) s).
Definition modify_db (f : DB -> DB) : M unit :=
  modify (fun s => with_db (f (db s)) s).

(** A new object: its address is the next free one. *)
Definition alloc (v : MotionVersion) : M addr :=
  fun s => (Ok (length (heap s)), with_heap (heap s ++ [v]) s).

Definition deref (a : addr) : M MotionVersion :=
  fun s => match heap s !! a with
           | Some v => (Ok v, s)
           | None => (Raise Dangling, s)
           end.

(** [setattr(version, ...)] on the object at [a]. *)
Definition update (a : addr) (f : MotionVersion -> MotionVersion) : M unit :=
  v ← deref a;
  modify (fun s => with_heap (<[a := f v]> (heap s)) s).

(** ** Queries *)

(** [motion.versions] (the related manager of [MotionVersion.motion]) in the
    order of the table; an unsaved motion has no related rows. *)
Definition versions_of (mid : option nat) (d : DB) : list VersionRow :=
  match mid with
  | Some i => filter (fun r => vr_motion r = i) (versions d)
  | None => []
  end.

Definition supporter_of (mid : option nat) (d : DB) : list SupporterRow :=
  match mid with
  | Some i => filter (fun r => sr_motion r = i) (supporters d)
  | None => []
  end.

Definition polls_of (mid : option nat) (d : DB) : list PollRow :=
  match mid with
  | Some i => filter (fun r => pr_motion r = i) (polls d)
  | None => []
  end.

(** [.order_by('id').reverse()[0]]: the row of greatest [id], [None] where
    Python raises [IndexError]. *)
Fixpoint greatest_id (rows : list VersionRow) : option VersionRow :=
  match rows with
  | [] => None
  | r :: rs =>
      match greatest_id rs with
      | Some r' => if decide (vr_id r < vr_id r') then Some r' else Some r
      | None => Some r
      end
  end.

(** [.aggregate(Max('poll_number'))['poll_number__max']]: [None] on no row. *)
Definition aggregate_max (ns : list nat) : option nat :=
  match ns with
  | [] => None
  | _ => Some (max_list ns)
  end.

(** [x or 0] on an optional number. *)
Definition or_0 (x : option nat) : nat :=
  match x with
  | Some (S n) => S n
  | Some 0 => 0
  | None => 0
  end.

(** ** Saving instances ([django.db.models.Model.save]) *)

Definition update_version_row (v : MotionVersion) (i : nat) (r : VersionRow) : VersionRow :=
  if decide (vr_id r = i)
  then {| vr_id := i; vr_motion := default (vr_motion r) (mv_motion_id v);
          vr_title := mv_title v; vr_text := mv_text v; vr_reason := mv_reason v |}
  else r.

Definition with_versions (vs : list VersionRow) (d : DB) : DB :=
  {| motions := motions d; versions := vs; supporters := supporters d;
     polls := polls d; options := options d |}.
Definition with_motions (ms : list MotionRow) (d : DB) : DB :=
  {| motions := ms; versions := versions d; supporters := supporters d;
     polls := polls d; options := options d |}.
Definition with_supporters (ss : list SupporterRow) (d : DB) : DB :=
  {| motions := motions d; versions := versions d; supporters := ss;
     polls := polls d; options := options d |}.
Definition with_polls (ps : list PollRow) (d : DB) : DB :=
  {| motions := motions d; versions := versions d; supporters := supporters d;
     polls := ps; options := options d |}.
Definition with_options (os : list OptionRow) (d : DB) : DB :=
  {| motions := motions d; versions := versions d; supporters := supporters d;
     polls := polls d; options := os |}.

(** [version.save()] for the [MotionVersion] at address [a]: a NULL in a
    NOT NULL column is an [IntegrityError]; an instance without primary key
    is inserted and receives the next key; an instance with a primary key
    updates its row, or is inserted under that key when the table has no
    such row. *)
Definition MotionVersion_save (a : addr) : M unit :=
  v ← deref a;
  match mv_motion_id v, mv_title v, mv_text v with
  | Some mid, Some _, Some _ =>
      d ← gets db;
      match mv_pk v with
      | None =>
          let i := next_id (vr_id <$> versions d) in
          modify_db (with_versions (versions d ++ [
            {| vr_id := i; vr_motion := mid; vr_title := mv_title v;
               vr_text := mv_text v; vr_reason := mv_reason v |}])) ;;
          update a (fun v => {| mv_pk := Some i; mv_motion_id := mv_motion_id v;
                                mv_title := mv_title v; mv_text := mv_text v;
                                mv_reason := mv_reason v |})
      | Some i =>
          if decide (i ∈ vr_id <$> versions d)
          then modify_db (with_versions (update_version_row v i <$> versions d))
          else modify_db (with_versions (versions d ++ [
            {| vr_id := i; vr_motion := mid; vr_title := mv_title v;
               vr_text := mv_text v; vr_reason := mv_reason v |}]))
      end
  | _, _, _ => raise IntegrityError
  end.

(** [super(Motion, self).save()]: insert or update the row of the motion. *)
Definition Model_save : M unit :=
  m ← gets self;
  d ← gets db;
  match pk m with
  | None =>
      let i := next_id (mr_id <$> motions d) in
      modify_db (with_motions (motions d ++ [{| mr_id := i; mr_state_id := state_id m |}])) ;;
      modify_self (with_pk (Some i))
  | Some i =>
      if decide (i ∈ mr_id <$> motions d)
      then modify_db (with_motions
             ((fun r => if decide (mr_id r = i)
                        then {| mr_id := i; mr_state_id := state_id m |} else r)
              <$> motions d))
      else modify_db (with_motions
             (motions d ++ [{| mr_id := i; mr_state_id := state_id m |}]))
  end.

(** [MotionSupporter(motion=self, person=person).save()]. *)
Definition MotionSupporter_save (person : Person) : M unit :=
  m ← gets self;
  d ← gets db;
  match pk m with
  | None => raise IntegrityError
  | Some mid =>
      modify_db (with_supporters (supporters d ++ [
        {| sr_id := next_id (sr_id <$> supporters d); sr_person := person;
           sr_motion := mid |}]))
  end.

(** [MotionPoll.objects.create(motion=self, poll_number=n)]; the pair
    (motion, poll_number) is [unique_together]. *)
Definition MotionPoll_create (n : nat) : M PollRow :=
  m ← gets self;
  d ← gets db;
  match pk m with
  | None => raise IntegrityError
  | Some mid =>
      if decide (n ∈ pr_poll_number <$> polls_of (Some mid) d)
      then raise IntegrityError
      else
        let p := {| pr_id := next_id (pr_id <$> polls d); pr_motion := mid;
                    pr_poll_number := n |} in
        modify_db (with_polls (polls d ++ [p])) ;;
        mret p
  end.

(** [MotionPoll.set_options]: [self.get_option_class()(poll=self).save()]. *)
Definition set_options (p : PollRow) : M unit :=
  d ← gets db;
  modify_db (with_options (options d ++ [
    {| or_id := next_id (or_id <$> options d); or_poll := pr_id p |}])).

(** ** [MotionVersion.version_number] (lines 343-348) *)

Definition version_number (d : DB) (v : MotionVersion) : PyVal :=
  match mv_pk v with
  | None => PyStr "new"
  | Some i =>
      PyInt (length (filter (fun r => (vr_id r ≤ i)%nat)
                       (filter (fun r => Some (vr_motion r) = mv_motion_id v)
                          (versions d))))
  end.

(** ** The methods of [Motion] *)

(** The argument of [set_version]: [None], a value of type [int], a
    [MotionVersion] (by address), or a value of any other type.  Where
    [int] is the machine integer (Python 2), an integer outside the 64-bit
    range is a [long], a value of another type: [VOther]. *)
Inductive VersionArg : Type :=
| VNone
| VInt (n : Z)
| VVersion (a : addr)
| VOther.

Section Motion.
Context {W : workflow.Registry}.
(** [config[key]]. *)
Variable config : string -> string.

(** The argument of [set_state]: a [State], or anything else, which
    [get_state] is asked to resolve. *)
Inductive StateArg : Type :=
| SState (s : workflow.State)
| SToken (t : string).

(** [new_version] (lines 181-193). *)
Definition new_version : M addr :=
  m ← gets self;
  match _new_version m with
  | Some a => mret a
  | None =>
      a ← alloc (MotionVersion_init m);
      modify_self (with_new_version (Some a)) ;;
      mret a
  end.

(** [last_version] (lines 229-238). *)
Definition last_version : M addr :=
  m ← gets self;
  d ← gets db;
  match greatest_id (versions_of (pk m) d) with
  | Some r => alloc (instance_of_row r)
  | None => new_version
  end.

(** [get_version] (lines 195-203). *)
Definition get_version : M addr :=
  m ← gets self;
  match _version m with
  | Some a => mret a
  | None => last_version
  end.

(** [set_version] (lines 205-225).  [self.versions.all()[n]] takes the
    row at position [n] counted from 0, refuses a negative [n] with an
    assertion and raises [IndexError] past the end; the query runs with
    [OFFSET n], which the database takes as a 64-bit integer and refuses
    with [IntegrityError] from 2^63 on.  A table has fewer rows than that,
    so a position that holds a row is within the range. *)
Definition set_version (version : VersionArg) : M unit :=
  match version with
  | VNone => modify_self (with_version None)
  | VInt n =>
      m ← gets self;
      d ← gets db;
      if decide (n < 0)%Z then raise AssertionError
      else match versions_of (pk m) d !! Z.to_nat n with
           | Some r =>
               a ← alloc (instance_of_row r);
               modify_self (with_version (Some a))
           | None =>
               if decide (n < 2 ^ 63)%Z then raise IndexError
               else raise IntegrityError
           end
  | VVersion a => modify_self (with_version (Some a))
  | VOther => raise ValueError
  end.

(** [getattr(self, attr)]: the properties [title], [text], [reason]
    ([get_title], [get_text], [get_reason], lines 130-179). *)
Definition getattr_self (a : attr) : M Value :=
  m ← gets self;
  match staged a m with
  | Some x => mret x
  | None => v ← get_version; o ← deref v; mret (getattr_version a o)
  end.

Definition get_title : M Value := getattr_self Title.
Definition get_text : M Value := getattr_self Text.
Definition get_reason : M Value := getattr_self Reason.

Definition set_title (title : Value) : M unit :=
  modify_self (set_staged Title (Some title)).
Definition set_text (text : Value) : M unit :=
  modify_self (set_staged Text (Some text)).
Definition set_reason (reason : Value) : M unit :=
  modify_self (set_staged Reason (Some reason)).

(** [get_state] (lines 277-284): [None] when the registry raises. *)
Definition get_state : M (option workflow.State) :=
  m ← gets self;
  mret (workflow.get_state (state_id m)).

(** [self.state.<flag>]: reading an attribute of [None] is an
    [AttributeError]. *)
Definition state_attr {A} (f : workflow.State -> A) : M A :=
  st ← get_state;
  match st with
  | Some s => mret (f s)
  | None => raise AttributeError
  end.

(** [set_state] (lines 286-297). *)
Definition set_state (next_state : StateArg) : M unit :=
  next_state ← match next_state with
               | SState s => mret s
               | SToken t =>
                   match workflow.get_state t with
                   | Some s => mret s
                   | None => raise WorkflowError
                   end
               end;
  nexts ← state_attr workflow.next_states;
  if decide (next_state ∈ nexts)
  then modify_self (with_state_id (workflow.id next_state))
  else raise WorkflowError.

(** [reset_state] (lines 301-305). *)
Definition reset_state : M unit :=
  match workflow.get_state "default" with
  | Some s => modify_self (with_state_id (workflow.id s))
  | None => raise WorkflowError
  end.

(** [is_supporter] (lines 240-241). *)
Definition is_supporter (person : Person) : M bool :=
  m ← gets self;
  d ← gets db;
  mret (bool_decide (filter (fun r => sr_person r = person) (supporter_of (pk m) d) ≠ [])).

(** [support] (lines 243-253). *)
Definition support (person : Person) : M unit :=
  allowed ← state_attr workflow.support;
  if allowed : bool then
    b ← is_supporter person;
    if negb b then MotionSupporter_save person else mret tt
  else
    state_attr workflow.name ;; raise WorkflowError.

(** [unsupport] (lines 255-262). *)
Definition unsupport (person : Person) : M unit :=
  allowed ← state_attr workflow.support;
  if allowed : bool then
    m ← gets self;
    match pk m with
    | Some mid =>
        modify_db (fun d => with_supporters
          (filter (fun r => ¬ (sr_motion r = mid ∧ sr_person r = person))
             (supporters d)) d)
    | None => mret tt
    end
  else
    state_attr workflow.name ;; raise WorkflowError.

(** [create_poll] (lines 264-275). *)
Definition create_poll : M PollRow :=
  allowed ← state_attr workflow.poll;
  if allowed : bool then
    m ← gets self;
    d ← gets db;
    let poll_number := or_0 (aggregate_max (pr_poll_number <$> polls_of (pk m) d)) in
    poll ← MotionPoll_create (poll_number + 1);
    set_options poll ;;
    mret poll
  else
    state_attr workflow.name ;; raise WorkflowError.

(** The test of the first loop of [save] (line 95):
    [getattr(self, attr) != getattr(self.last_version, attr)]; the left
    side is evaluated first. *)
Definition differs (a : attr) : M bool :=
  x ← getattr_self a;
  lv ← last_version;
  o ← deref lv;
  mret (bool_decide (x ≠ getattr_version a o)).

(** The first loop of [save] (lines 94-99): it stops at the first name
    whose values differ. *)
Fixpoint new_data_of (attrs : list attr) : M bool :=
  match attrs with
  | [] => mret false
  | a :: rest =>
      b ← differs a;
      if b : bool then mret true else new_data_of rest
  end.

(** The body of the second loop of [save] (lines 113-119). *)
Definition write_attr (version : addr) (a : attr) : M unit :=
  m ← gets self;
  match staged a m with
  | Some x =>
      update version (setattr_version a x) ;;
      modify_self (set_staged a None)
  | None =>
      lv ← last_version;
      o ← deref lv;
      update version (setattr_version a (getattr_version a o))
  end.

(** The second loop of [save] (lines 112-119). *)
Fixpoint write_attrs (version : addr) (attrs : list attr) : M unit :=
  match attrs with
  | [] => mret tt
  | a :: rest => write_attr version a ;; write_attrs version rest
  end.

(** The second half of [save] (lines 101-120): given [new_data], choose
    the version to write, fill it and save it. *)
Definition save_version (new_data : bool) : M unit :=
  let need_new_version :=
    bool_decide (config "motion_create_new_version" = "ALLWASY_CREATE_NEW_VERSION") in
  m ← gets self;
  if bool_decide (is_Some (_new_version m)) || (new_data && need_new_version) then
    version ← new_version;
    modify_self (with_new_version None) ;;
    m ← gets self;
    update version (fun v => {| mv_pk := mv_pk v; mv_motion_id := pk m;
                                mv_title := mv_title v; mv_text := mv_text v;
                                mv_reason := mv_reason v |}) ;;
    write_attrs version [Title; Text; Reason] ;;
    MotionVersion_save version
  else if new_data && negb need_new_version then
    version ← last_version;
    write_attrs version [Title; Text; Reason] ;;
    MotionVersion_save version
  else
    mret tt.

(** [save] (lines 86-120). *)
Definition save : M unit :=
  m ← gets self;
  (if decide (state_id m = "") then reset_state else mret tt) ;;
  Model_save ;;
  new_data ← new_data_of [Title; Text; Reason];
  save_version new_data.
End Motion.

(** ** Stores the methods can build *)

(** A call of one public method of [Motion]. *)
Inductive Call {W : workflow.Registry} : Type :=
| CSave
| CGetTitle | CGetText | CGetReason
| CSetTitle (x : Value) | CSetText (x : Value) | CSetReason (x : Value)
| CNewVersion | CLastVersion | CGetVersion
| CSetVersion (v : VersionArg)
| CIsSupporter (p : Person) | CSupport (p : Person) | CUnsupport (p : Person)
| CCreatePoll
| CGetState | CSetState (x : StateArg) | CResetState.

(** Run a call for its effect on the store and drop what it returns. *)
Definition call {W : workflow.Registry} (config : string -> string) (c : Call) : M unit :=
  match c with
  | CSave => save config
  | CGetTitle => get_title ;; mret tt
  | CGetText => get_text ;; mret tt
  | CGetReason => get_reason ;; mret tt
  | CSetTitle x => set_title x
  | CSetText x => set_text x
  | CSetReason x => set_reason x
  | CNewVersion => new_version ;; mret tt
  | CLastVersion => last_version ;; mret tt
  | CGetVersion => get_version ;; mret tt
  | CSetVersion v => set_version v
  | CIsSupporter p => is_supporter p ;; mret tt
  | CSupport p => support p
  | CUnsupport p => unsupport p
  | CCreatePoll => create_poll ;; mret tt
  | CGetState => get_state ;; mret tt
  | CSetState x => set_state x
  | CResetState => reset_state
  end.

(** A version handed to [set_version] is an object that exists. *)
Definition call_ok {W : workflow.Registry} (c : Call) (s : store) : Prop :=
  match c with
  | CSetVersion (VVersion a) => a < length (heap s)
  | _ => True
  end.

(** [Motion.objects.get(pk=...)]: the instance built from a row. *)
Definition motion_of_row (r : MotionRow) : Motion :=
  {| pk := Some (mr_id r); state_id := mr_state_id r; _title := None; _text := None;
     _reason := None; _new_version := None; _version := None |}.

Definition initial : store :=
  {| db := empty_db; heap := []; self := Motion_init |}.

(** The stores that arise from the empty database by calls of the methods,
    whatever the configuration holds at each call; between calls the caller
    may turn to a new [Motion()] or to a stored motion, and may construct
    [MotionVersion] instances of its own. *)
Inductive reachable {W : workflow.Registry} : store -> Prop :=
| reach_initial : reachable initial
| reach_call config c s :
    reachable s -> call_ok c s -> reachable (call config c s).2
| reach_Motion s :
    reachable s -> reachable (with_self Motion_init s)
| reach_get r s :
    reachable s -> r ∈ motions (db s) -> reachable (with_self (motion_of_row r) s)
| reach_instance v s :
    reachable s -> reachable (with_heap (heap s ++ [v]) s).

(** ** Notions the statements use *)

(** The row [last_version] reads, if the motion has one. *)
Definition ledger (s : store) : option VersionRow :=
  greatest_id (versions_of (pk (self s)) (db s)).

(** An instance as [MotionVersion(motion=...)] leaves it. *)
Definition blank (w : MotionVersion) : Prop :=
  mv_pk w = None ∧ mv_title w = Some "" ∧ mv_text w = Some "" ∧ mv_reason w = None.

(** The memoized [_new_version], when present, is a blank object other than
    [version]. *)
Definition nv_ok (version : option addr) (s : store) : Prop :=
  match _new_version (self s) with
  | None => True
  | Some b => Some b ≠ version ∧ ∃ w, heap s !! b = Some w ∧ blank w
  end.

Definition valid (version : option addr) (s : store) : Prop :=
  match version with
  | Some a => a < length (heap s)
  | None => True
  end.

(** The object store grows and keeps every cell but that of [version]. *)
Definition extends (version : option addr) (h h' : list MotionVersion) : Prop :=
  length h ≤ length h' ∧
  ∀ b, b < length h -> Some b ≠ version -> h' !! b = h !! b.

(** The value [getattr(self.last_version, x)] has. *)
Definition fb (s : store) (x : attr) : Value :=
  match ledger s with
  | Some r => getattr_version x (instance_of_row r)
  | None => getattr_version x (MotionVersion_init (self s))
  end.

(** The value [getattr(self, x)] has. *)
Definition cur (s : store) (x : attr) : Value :=
  match staged x (self s) with
  | Some v => v
  | None =>
      match _version (self s) with
      | Some c => from_option (getattr_version x) None (heap s !! c)
      | None => fb s x
      end
  end.

(** The value the second loop of [save] writes for [x]. *)
Definition final (s : store) (x : attr) : Value :=
  default (fb s x) (staged x (self s)).

(** The staged attributes the second loop deletes. *)
Definition clear (attrs : list attr) (m : Motion) : Motion :=
  foldl (fun m x => set_staged x None m) m attrs.

(** The object the second loop leaves, from the values it writes. *)
Definition fill (attrs : list attr) (val : attr -> Value) (v : MotionVersion) : MotionVersion :=
  foldl (fun v x => setattr_version x (val x) v) v attrs.

(** What reading [last_version] may do to the store: nothing to the
    database, new objects, and a memoized [_new_version] when the motion has
    no version. *)
Record reads (version : option addr) (s s' : store) : Prop := {
  reads_db : db s' = db s;
  reads_self : self s' = with_new_version (_new_version (self s')) (self s);
  reads_heap : extends None (heap s) (heap s');
  reads_nv : nv_ok version s';
  reads_keep : is_Some (ledger s) -> _new_version (self s') = _new_version (self s)
}.

(** What the second loop of [save] does to the store when it runs over
    [attrs] with the object [v] at [version]. *)
Record writes (version : addr) (attrs : list attr) (v : MotionVersion)
    (s s' : store) : Prop := {
  writes_db : db s' = db s;
  writes_self : self s' = with_new_version (_new_version (self s')) (clear attrs (self s));
  writes_heap : extends (Some version) (heap s) (heap s');
  writes_cell : heap s' !! version = Some (fill attrs (final s) v);
  writes_nv : nv_ok (Some version) s';
  writes_keep : is_Some (ledger s) -> _new_version (self s') = _new_version (self s)
}.

Definition supporter_key (r : SupporterRow) : Person * nat := (sr_person r, sr_motion r).

(** What holds of every reachable database: keys of versions increase along
    the table, every version belongs to a stored motion, and no person
    supports a motion twice. *)
Record db_ok (d : DB) : Prop := {
  ok_sorted : StronglySorted lt (vr_id <$> versions d);
  ok_fk : ∀ r, r ∈ versions d -> vr_motion r ∈ mr_id <$> motions d;
  ok_supporters : NoDup (supporter_key <$> supporters d)
}.

(** What holds of every reachable store: the database is as above and the
    private attributes of [self] name live objects, [_new_version] a blank
    one. *)
Record Inv (s : store) : Prop := {
  inv_db : db_ok (db s);
  inv_new_version : nv_ok None s;
  inv_version : valid (_version (self s)) s
}.

(** ** A registry and a configuration to run examples on *)

Inductive demo_state : Type := Pub | Per | Acc | Rej.

Global Instance demo_state_eq_dec : EqDecision demo_state.
Proof. solve_decision. Defined.

Definition demo_get_state (t : string) : option demo_state :=
  if decide (t = "default") then Some Pub
  else if decide (t = "pub") then Some Pub
  else if decide (t = "per") then Some Per
  else if decide (t = "acc") then Some Acc
  else if decide (t = "rej") then Some Rej
  else None.

Definition demo : workflow.Registry := {|
  workflow.State := demo_state;
  workflow.get_state := demo_get_state;
  workflow.id := fun s =>
    match s with Pub => "pub" | Per => "per" | Acc => "acc" | Rej => "rej" end;
  workflow.name := fun s =>
    match s with
    | Pub => "Published" | Per => "Permitted" | Acc => "Accepted" | Rej => "Rejected"
    end;
  workflow.support := fun s => match s with Pub => true | _ => false end;
  workflow.poll := fun s => match s with Per => true | _ => false end;
  workflow.next_states := fun s =>
    match s with Pub => [Per; Rej] | Per => [Acc; Rej] | _ => [] end
|}.

Definition always_new : string -> string := fun _ => "ALLWASY_CREATE_NEW_VERSION".
Definition update_existing : string -> string := fun _ => "EDIT_OLD_VERSION".

(** ** What the two halves of [save] do *)

(** [save] gets past its first lines when the motion has a state or the
    registry knows the token ["default"]. *)
Definition state_ok {W : workflow.Registry} (s : store) : Prop :=
  state_id (self s) ≠ "" ∨ is_Some (workflow.get_state "default").

(** The store after lines 90-93 of [save]: the motion has a row and a key;
    nothing else moved. *)
Record prepared (s s1 : store) : Prop := {
  prep_versions : versions (db s1) = versions (db s);
  prep_supporters : supporters (db s1) = supporters (db s);
  prep_polls : polls (db s1) = polls (db s);
  prep_options : options (db s1) = options (db s);
  prep_heap : heap s1 = heap s;
  prep_self : self s1 = with_pk (pk (self s1)) (with_state_id (state_id (self s1)) (self s));
  prep_pk : ∃ i, pk (self s1) = Some i ∧ i ∈ mr_id <$> motions (db s1)
                 ∧ (pk (self s) = None -> i = next_id (mr_id <$> motions (db s)))
                 ∧ (∀ j, pk (self s) = Some j -> i = j);
  prep_motions : ∀ j, j ∈ mr_id <$> motions (db s) -> j ∈ mr_id <$> motions (db s1)
}.

(** The object [save] fills when it creates a version for motion [mid]. *)
Definition fresh_version (mid : option nat) : MotionVersion :=
  {| mv_pk := None; mv_motion_id := mid;
     mv_title := Some ""; mv_text := Some ""; mv_reason := None |}.

(** The row [save] writes from the object [v] under key [i]. *)
Definition row_of (i mid : nat) (v : MotionVersion) : VersionRow :=
  {| vr_id := i; vr_motion := mid; vr_title := mv_title v; vr_text := mv_text v;
     vr_reason := mv_reason v |}.

Definition all_attrs : list attr := [Title; Text; Reason].

(** What [save] leaves of the instance and the object store, whichever
    branch it takes. *)
Record kept (s s' : store) : Prop := {
  kept_pk : pk (self s') = pk (self s);
  kept_state_id : state_id (self s') = state_id (self s);
  kept_version : _version (self s') = _version (self s);
  kept_heap : length (heap s) ≤ length (heap s');
  kept_nv : nv_ok None s'
}.

(** [need_new_version] of line 101. *)
Definition need_new_version (config : string -> string) : bool :=
  bool_decide (config "motion_create_new_version" = "ALLWASY_CREATE_NEW_VERSION").

(** The object the second loop leaves when it starts from [v]. *)
Definition written (s : store) (v : MotionVersion) : MotionVersion :=
  fill all_attrs (final s) v.

(** What [set_state] is asked to reach: the state itself, or the state the
    registry resolves the token to. *)
Definition resolve {W : workflow.Registry} (x : StateArg) : option workflow.State :=
  match x with
  | SState n => Some n
  | SToken t => workflow.get_state t
  end.

(** Run a list of calls, one after the other, whatever each returns. *)
Definition run_calls {W : workflow.Registry} (config : string -> string)
    (cs : list Call) (s : store) : store :=
  foldl (fun s c => (call config c s).2) s cs.

(** Scenario A: a new motion with title "A", text "B" and reason "C",
    saved once. *)
Definition store_A : store :=
  run_calls (W := demo) always_new
    [CSetTitle (Some "A"); CSetText (Some "B"); CSetReason (Some "C"); CSave] initial.

(** Scenario B: after A, the title "A2" is staged and the motion saved. *)
Definition store_B : store :=
  run_calls (W := demo) always_new [CSetTitle (Some "A2"); CSave] store_A.

(** The second version of the motion in scenario B. *)
Definition row_B2 : VersionRow :=
  {| vr_id := 2; vr_motion := 1; vr_title := Some "A2"; vr_text := Some "B";
     vr_reason := Some "C" |}.

(** The motion of scenario A, moved to the state that allows polls, with two
    polls. *)
Definition store_polls : store :=
  run_calls (W := demo) always_new
    [CSetState (SState (Per : @workflow.State demo)); CCreatePoll; CCreatePoll] store_A.

(** A new motion with only a title staged, saved once. *)
Definition store_title_only : store :=
  run_calls (W := demo) always_new [CSetTitle (Some "A"); CSave] initial.

(** ** Further methods and notions *)

(** [get_agenda_title] (lines 317-318): the title of [last_version]. *)
Definition get_agenda_title : M Value :=
  lv ← last_version;
  o ← deref lv;
  mret (mv_title o).

(** What the second half of [save] does to the database, from the store
    [s2] it starts in to the store [s'] it ends in: nothing, one row
    appended for the motion, or the last row of the motion rewritten. *)
Inductive version_write (config : string -> string) (s2 s' : store) : Prop :=
| write_none : db s' = db s2 -> version_write config s2 s'
| write_new i t x :
    pk (self s2) = Some i -> final s2 Title = Some t -> final s2 Text = Some x ->
    db s' = with_versions (versions (db s2) ++ [
              row_of (next_id (vr_id <$> versions (db s2))) i
                (written s2 (fresh_version (Some i)))]) (db s2) ->
    version_write config s2 s'
| write_last r t x :
    ledger s2 = Some r -> need_new_version config = false ->
    _new_version (self s2) = None ->
    final s2 Title = Some t -> final s2 Text = Some x ->
    db s' = with_versions
              (update_version_row (written s2 (instance_of_row r)) (vr_id r)
                 <$> versions (db s2)) (db s2) ->
    version_write config s2 s'.

(** The poll numbers of every motion are 1, 2, ..., in the order of the
    table. *)
Definition polls_numbered (d : DB) : Prop :=
  ∀ mid, pr_poll_number <$> polls_of (Some mid) d
           = seq 1 (length (polls_of (Some mid) d)).

(** The NOT NULL columns of the versions hold values. *)
Definition rows_not_null (d : DB) : Prop :=
  ∀ r, r ∈ versions d -> is_Some (vr_title r) ∧ is_Some (vr_text r).

(** The state [save] leaves the motion in: its own, or that of the token
    ["default"] when it had none. *)
Definition state_after_save {W : workflow.Registry} (s : store) : string :=
  if decide (state_id (self s) = "")
  then from_option workflow.id "" (workflow.get_state "default")
  else state_id (self s).

(** A new motion with title "A", text "B" and reason "C" staged, not yet
    saved. *)
Definition store_staged : store :=
  run_calls (W := demo) always_new
    [CSetTitle (Some "A"); CSetText (Some "B"); CSetReason (Some "C")] initial.

(** The first version of the motion in scenarios A and B. *)
Definition row_A1 : VersionRow :=
  {| vr_id := 1; vr_motion := 1; vr_title := Some "A"; vr_text := Some "B";
     vr_reason := Some "C" |}.

(** Scenario A with the title "A2" staged, and with a supporter. *)
Definition store_A_retitled : store :=
  (call (W := demo) update_existing (CSetTitle (Some "A2")) store_A).2.
Definition store_A_supported : store :=
  (call (W := demo) update_existing (CSupport "alice") store_A).2.

(** The setter of an attribute. *)
Definition setattr_self (a : attr) : Value -> M unit :=
  match a with
  | Title => set_title
  | Text => set_text
  | Reason => set_reason
  end.

(** A new motion, not saved, put into the default state, which allows
    support; and the same moved on to the state that allows polls. *)
Definition store_unsaved : store :=
  run_calls (W := demo) always_new [CResetState] initial.
Definition store_unsaved_per : store :=
  run_calls (W := demo) always_new
    [CSetState (SState (Per : @workflow.State demo))] store_unsaved.

(** * Proofs *)

(** ** Stepping through the monad *)

Ltac msimpl :=
  repeat (progress (unfold mbind, M_bind, mret, M_ret, gets, modify_self, modify_db,
                    modify, alloc, raise; simpl)).

Section Specs.
Context {W : workflow.Registry}.

Lemma bind_eq {A B} (m : M A) (f : A -> M B) s :
  (m ≫= f) s = match m s with (Ok a, s') => f a s' | (Raise e, s') => (Raise e, s') end.
Proof. reflexivity. Qed.

Lemma deref_eq a v s : heap s !! a = Some v -> deref a s = (Ok v, s).
Proof. intros H. unfold deref. by rewrite H. Qed.

Lemma update_eq a f v s : heap s !! a = Some v ->
  update a f s = (Ok tt, with_heap (<[a := f v]> (heap s)) s).
Proof. intros H. unfold update. rewrite bind_eq, (deref_eq _ _ _ H). reflexivity. Qed.

Lemma extends_refl version h : extends version h h.
Proof. split; [lia|done]. Qed.

Lemma extends_trans version h1 h2 h3 :
  extends version h1 h2 -> extends version h2 h3 -> extends version h1 h3.
Proof.
  intros [L1 H1] [L2 H2]. split; [lia|]. intros b Hb Hne.
  rewrite H2; [by apply H1|lia|done].
Qed.

Lemma extends_snoc version h v : extends version h (h ++ [v]).
Proof. split; [rewrite length_app; lia|]. intros b Hb _. by apply lookup_app_l. Qed.

Lemma extends_lookup h h' a v : extends None h h' -> h !! a = Some v -> h' !! a = Some v.
Proof. intros [L H] Hv. rewrite H; [done| by eapply lookup_lt_Some | done]. Qed.

Lemma reads_refl version s : nv_ok version s -> reads version s s.
Proof.
  intros H. split; [done| by destruct (self s) | apply extends_refl | done | done].
Qed.

Lemma reads_ledger version s s' : reads version s s' -> ledger s' = ledger s.
Proof.
  intros [Hd Hs _ _ _]. unfold ledger. rewrite Hd, Hs. reflexivity.
Qed.

Lemma reads_fb version s s' x : reads version s s' -> fb s' x = fb s x.
Proof.
  intros H. unfold fb. rewrite (reads_ledger _ _ _ H). by destruct x.
Qed.

Lemma reads_staged version s s' x : reads version s s' -> staged x (self s') = staged x (self s).
Proof. intros [_ Hs _ _ _]. rewrite Hs. by destruct x. Qed.

Lemma reads_trans version s1 s2 s3 :
  reads version s1 s2 -> reads version s2 s3 -> reads version s1 s3.
Proof.
  intros H12 H23. pose proof (reads_ledger _ _ _ H12) as HL.
  destruct H12 as [D1 S1 E1 N1 K1], H23 as [D2 S2 E2 N2 K2].
  split.
  - congruence.
  - rewrite S2, S1. reflexivity.
  - by eapply extends_trans.
  - done.
  - intros Hl. rewrite K2, K1; [done|done|]. by rewrite HL.
Qed.

Lemma last_version_spec version s :
  nv_ok version s -> valid version s ->
  ∃ a o s', last_version s = (Ok a, s') ∧ heap s' !! a = Some o
    ∧ (∀ x, getattr_version x o = fb s x)
    ∧ Some a ≠ version
    ∧ reads version s s'
    ∧ (ledger s = None -> _new_version (self s') = Some a).
Proof.
  intros Hnv Hval. unfold last_version, fb.
  msimpl. fold (ledger s).
  destruct (ledger s) as [r|] eqn:E.
  - eexists _, _, _. split; [reflexivity|]. simpl.
    split; [apply list_lookup_middle; reflexivity|].
    split; [done|].
    split. { destruct version; simpl in *; [|done]. intros [=]. lia. }
    split; [|done].
    split; simpl; [done| by destruct (self s) | apply extends_snoc | | done].
    unfold nv_ok in *. simpl. destruct (_new_version (self s)); [|done].
    destruct Hnv as (? & w & Hw & ?). split; [done|]. exists w. split; [|done].
    rewrite lookup_app_l; [done|]. by eapply lookup_lt_Some.
  - unfold new_version. msimpl.
    destruct (_new_version (self s)) as [b|] eqn:Eb.
    + pose proof Hnv as Hnv'. unfold nv_ok in Hnv. rewrite Eb in Hnv.
      destruct Hnv as (Hne & w & Hw & Hbl).
      eexists b, w, s. split; [reflexivity|]. split; [done|].
      split. { intros []; destruct Hbl as (?&?&?&?); simpl; congruence. }
      split; [done|]. split; [by apply reads_refl|done].
    + eexists _, _, _. split; [reflexivity|]. simpl.
      split; [apply list_lookup_middle; reflexivity|].
      split; [done|].
      split. { destruct version; simpl in *; [|done]. intros [=]. lia. }
      split; [|done].
      split; simpl; [done| by destruct (self s) | apply extends_snoc | | ].
      * unfold nv_ok. simpl. split.
        { destruct version; simpl in *; [|done]. intros [=]. lia. }
        eexists. split; [apply list_lookup_middle; reflexivity|]. done.
      * rewrite E. by intros [? [=]].
Qed.


Lemma reads_valid version v s s' : reads version s s' -> valid v s -> valid v s'.
Proof.
  intros [_ _ [L _] _ _]. destruct v; simpl; [lia|done].
Qed.

Lemma reads_version version s s' : reads version s s' -> _version (self s') = _version (self s).
Proof. intros [_ Hs _ _ _]. rewrite Hs. reflexivity. Qed.

Lemma reads_cur version s s' x :
  reads version s s' -> valid (_version (self s)) s -> cur s' x = cur s x.
Proof.
  intros H Hv. unfold cur.
  rewrite (reads_staged _ _ _ _ H), (reads_version _ _ _ H), (reads_fb _ _ _ _ H).
  destruct (staged x (self s)); [done|].
  destruct (_version (self s)) as [c|]; [|done]. simpl in Hv.
  destruct (lookup_lt_is_Some_2 _ _ Hv) as [o Ho].
  by rewrite (extends_lookup _ _ _ _ (reads_heap _ _ _ H) Ho), Ho.
Qed.

Lemma differs_spec version x s :
  nv_ok version s -> valid version s -> valid (_version (self s)) s ->
  ∃ s', differs x s = (Ok (bool_decide (cur s x ≠ fb s x)), s')
    ∧ reads version s s'
    ∧ (ledger s = None -> is_Some (_new_version (self s'))).
Proof.
  intros Hnv Hval Hver. unfold differs, getattr_self, get_version, cur.
  destruct (staged x (self s)) as [v|] eqn:Est.
  - destruct (last_version_spec version s Hnv Hval)
      as (a1 & o1 & s1 & E1 & Ho1 & Hf1 & _ & Hr1 & Hn1).
    msimpl. rewrite Est. msimpl. rewrite E1, (deref_eq _ _ _ Ho1), Hf1.
    eexists. split; [reflexivity|]. split; [done|]. intros E. rewrite Hn1; eauto.
  - destruct (_version (self s)) as [c|] eqn:Ec.
    + simpl in Hver. destruct (lookup_lt_is_Some_2 _ _ Hver) as [o Ho].
      destruct (last_version_spec version s Hnv Hval)
        as (a1 & o1 & s1 & E1 & Ho1 & Hf1 & _ & Hr1 & Hn1).
      msimpl. rewrite Est, Ec. msimpl. rewrite (deref_eq _ _ _ Ho). rewrite Ho. simpl.
      rewrite E1, (deref_eq _ _ _ Ho1), Hf1.
      eexists. split; [reflexivity|]. split; [done|]. intros E. rewrite Hn1; eauto.
    + destruct (last_version_spec version s Hnv Hval)
        as (a1 & o1 & s1 & E1 & Ho1 & Hf1 & _ & Hr1 & Hn1).
      destruct (last_version_spec version s1 (reads_nv _ _ _ Hr1) (reads_valid _ _ _ _ Hr1 Hval))
        as (a2 & o2 & s2 & E2 & Ho2 & Hf2 & _ & Hr2 & Hn2).
      msimpl. rewrite Est, Ec. msimpl. rewrite E1, (deref_eq _ _ _ Ho1), E2, (deref_eq _ _ _ Ho2).
      rewrite Hf1, Hf2, (reads_fb _ _ _ _ Hr1).
      eexists. split; [reflexivity|]. split; [by eapply reads_trans|].
      intros E. rewrite Hn2; [eauto|]. by rewrite (reads_ledger _ _ _ Hr1).
Qed.

Lemma new_data_spec version attrs s :
  nv_ok version s -> valid version s -> valid (_version (self s)) s ->
  ∃ s', new_data_of attrs s = (Ok (bool_decide (Exists (fun x => cur s x ≠ fb s x) attrs)), s')
    ∧ reads version s s'
    ∧ (attrs ≠ [] -> ledger s = None -> is_Some (_new_version (self s'))).
Proof.
  revert s. induction attrs as [|x rest IH]; intros s Hnv Hval Hver.
  - exists s. split; [|split; [by apply reads_refl|done]].
    reflexivity.
  - destruct (differs_spec version x s Hnv Hval Hver) as (s1 & E1 & Hr1 & Hn1).
    simpl. rewrite bind_eq, E1.
    destruct (decide (cur s x ≠ fb s x)) as [Eb|Eb].
    + rewrite (bool_decide_eq_true_2 _ Eb).
      exists s1. split; [|split; [done|auto]].
      rewrite bool_decide_eq_true_2; [done|]. by apply Exists_cons_hd.
    + rewrite (bool_decide_eq_false_2 _ Eb).
      destruct (IH s1) as (s2 & E2 & Hr2 & Hn2).
      { by apply (reads_nv _ _ _ Hr1). } { by eapply reads_valid. }
      { rewrite (reads_version _ _ _ Hr1). by eapply reads_valid. }
      exists s2. rewrite E2. split; [|split].
      * f_equal. f_equal. apply bool_decide_ext. rewrite Exists_cons.
        split.
        -- intros H. right. eapply Exists_impl; [exact H|]. simpl. intros y.
           by rewrite (reads_cur _ _ _ _ Hr1 Hver), (reads_fb _ _ _ _ Hr1).
        -- intros [?|H]; [done|]. eapply Exists_impl; [exact H|]. simpl. intros y.
           by rewrite (reads_cur _ _ _ _ Hr1 Hver), (reads_fb _ _ _ _ Hr1).
      * by eapply reads_trans.
      * intros _ El. destruct (Hn1 El) as [b Hb].
        destruct Hr2 as [_ Hs2 _ _ _]. rewrite Hs2. simpl.
        destruct rest as [|y rest'].
        -- simpl in E2. injection E2 as <-. eauto.
        -- apply Hn2; [done|]. by rewrite (reads_ledger _ _ _ Hr1).
Qed.


Lemma set_staged_None_id x m : staged x m = None -> set_staged x None m = m.
Proof. destruct x, m; simpl; by intros ->. Qed.

Lemma staged_set_staged_ne x y o m : x ≠ y -> staged y (set_staged x o m) = staged y m.
Proof. by destruct x, y. Qed.

Lemma staged_with_new_version y n m : staged y (with_new_version n m) = staged y m.
Proof. by destruct y. Qed.

Lemma clear_with_new_version attrs n m :
  clear attrs (with_new_version n m) = with_new_version n (clear attrs m).
Proof.
  revert m. induction attrs as [|x rest IH]; intros m; [done|].
  simpl. rewrite <- IH. f_equal. by destruct x.
Qed.

Lemma fill_ext attrs f g v :
  (∀ y, y ∈ attrs -> f y = g y) -> fill attrs f v = fill attrs g v.
Proof.
  revert v. induction attrs as [|x rest IH]; intros v H; [done|].
  simpl. rewrite (H x) by apply list_elem_of_here.
  apply IH. intros y Hy. apply H. by apply list_elem_of_further.
Qed.

Lemma write_attr_spec version x v s :
  heap s !! version = Some v -> nv_ok (Some version) s ->
  ∃ s', write_attr version x s = (Ok tt, s') ∧ writes version [x] v s s'.
Proof.
  intros Hv Hnv. unfold write_attr, final.
  destruct (staged x (self s)) as [y|] eqn:Est.
  - msimpl. rewrite Est. msimpl. rewrite (update_eq _ _ _ _ Hv). simpl.
    eexists. split; [reflexivity|]. split; simpl.
    + done.
    + by destruct (self s), x.
    + split; [by rewrite length_insert|]. intros b Hb Hne.
      apply list_lookup_insert_ne. congruence.
    + unfold final. rewrite Est. simpl. apply list_lookup_insert_eq. by eapply lookup_lt_Some.
    + unfold nv_ok in *. simpl.
      replace (_new_version (set_staged x None (self s))) with (_new_version (self s))
        by (by destruct x).
      destruct (_new_version (self s)) as [b|]; [|done].
      destruct Hnv as (Hne & w & Hw & Hb). split; [done|]. exists w. split; [|done].
      rewrite list_lookup_insert_ne; [done|congruence].
    + intros _. by destruct x.
  - assert (Hval : valid (Some version) s) by (simpl; by eapply lookup_lt_Some).
    destruct (last_version_spec (Some version) s Hnv Hval)
      as (a & o & s1 & E1 & Ho & Hf & Hne & Hr & Hn).
    pose proof (extends_lookup _ _ _ _ (reads_heap _ _ _ Hr) Hv) as Hv1.
    msimpl. rewrite Est. msimpl. rewrite E1, (deref_eq _ _ _ Ho), (update_eq _ _ _ _ Hv1).
    eexists. split; [reflexivity|]. destruct Hr as [Hd Hs He Hnv1 Hk]. split; simpl.
    + done.
    + rewrite (set_staged_None_id _ _ Est). done.
    + split; [rewrite length_insert; apply He|]. intros b Hb Hneb.
      rewrite list_lookup_insert_ne by congruence. by apply He.
    + unfold final. rewrite Est, Hf. simpl. apply list_lookup_insert_eq. by eapply lookup_lt_Some.
    + unfold nv_ok in *. simpl.
      destruct (_new_version (self s1)) as [b|]; [|done].
      destruct Hnv1 as (Hneb & w & Hw & Hb). split; [done|]. exists w. split; [|done].
      rewrite list_lookup_insert_ne; [done|congruence].
    + done.
Qed.

Lemma pk_clear attrs m : pk (clear attrs m) = pk m.
Proof.
  revert m. induction attrs as [|x rest IH]; intros m; [done|].
  simpl. rewrite IH. by destruct x.
Qed.

Lemma writes_ledger version attrs v s s' : writes version attrs v s s' -> ledger s' = ledger s.
Proof.
  intros [Hd Hs _ _ _ _]. unfold ledger. rewrite Hd, Hs. simpl. by rewrite pk_clear.
Qed.

Lemma writes_nil version v s : heap s !! version = Some v -> nv_ok (Some version) s ->
  writes version [] v s s.
Proof.
  intros Hv Hnv. split; simpl; [done|by destruct (self s)|apply extends_refl|done|done|done].
Qed.

Lemma write_attrs_spec version attrs v s :
  NoDup attrs -> heap s !! version = Some v -> nv_ok (Some version) s ->
  ∃ s', write_attrs version attrs s = (Ok tt, s') ∧ writes version attrs v s s'.
Proof.
  revert v s. induction attrs as [|x rest IH]; intros v s Hnd Hv Hnv.
  - exists s. split; [done|]. by apply writes_nil.
  - apply NoDup_cons in Hnd as [Hx Hnd].
    destruct (write_attr_spec version x v s Hv Hnv) as (s1 & E1 & H1).
    destruct (IH _ s1 Hnd (writes_cell _ _ _ _ _ H1) (writes_nv _ _ _ _ _ H1)) as (s2 & E2 & H2).
    exists s2. split.
    { simpl. rewrite bind_eq, E1. exact E2. }
    pose proof (writes_ledger _ _ _ _ _ H1) as HL.
    destruct H1 as [D1 S1 X1 C1 N1 K1], H2 as [D2 S2 X2 C2 N2 K2]. split.
    + congruence.
    + rewrite S2, S1. simpl. rewrite clear_with_new_version. done.
    + by eapply extends_trans.
    + rewrite C2. f_equal. simpl. apply fill_ext. intros y Hy.
      unfold final, fb. rewrite HL, S1, staged_with_new_version.
      change (clear [x] (self s)) with (set_staged x None (self s)).
      rewrite staged_set_staged_ne; [by destruct y|]. intros ->. done.
    + done.
    + intros Hl. rewrite K2, K1; [done|done|]. by rewrite HL.
Qed.

(** ** Saving an instance *)

Lemma MotionVersion_save_null a v s :
  heap s !! a = Some v ->
  mv_motion_id v = None ∨ mv_title v = None ∨ mv_text v = None ->
  MotionVersion_save a s = (Raise IntegrityError, s).
Proof.
  intros Hv H. unfold MotionVersion_save. rewrite bind_eq, (deref_eq _ _ _ Hv).
  destruct (mv_motion_id v), (mv_title v), (mv_text v); try reflexivity;
    destruct H as [|[|]]; discriminate.
Qed.

Lemma MotionVersion_save_insert a v mid t x s :
  heap s !! a = Some v -> mv_pk v = None ->
  mv_motion_id v = Some mid -> mv_title v = Some t -> mv_text v = Some x ->
  MotionVersion_save a s =
    (Ok tt,
     {| db := with_versions (versions (db s) ++ [
                {| vr_id := next_id (vr_id <$> versions (db s)); vr_motion := mid;
                   vr_title := Some t; vr_text := Some x; vr_reason := mv_reason v |}])
              (db s);
        heap := <[a := {| mv_pk := Some (next_id (vr_id <$> versions (db s)));
                          mv_motion_id := Some mid; mv_title := Some t;
                          mv_text := Some x; mv_reason := mv_reason v |}]> (heap s);
        self := self s |}).
Proof.
  intros Hv Hpk Hm Ht Hx. unfold MotionVersion_save.
  rewrite bind_eq, (deref_eq _ _ _ Hv), Hm, Ht, Hx. msimpl. rewrite Hpk.
  unfold update. msimpl. unfold deref. simpl. rewrite Hv. simpl.
  rewrite Hm, Ht, Hx. reflexivity.
Qed.

Lemma MotionVersion_save_update a v i mid t x s :
  heap s !! a = Some v -> mv_pk v = Some i -> i ∈ vr_id <$> versions (db s) ->
  mv_motion_id v = Some mid -> mv_title v = Some t -> mv_text v = Some x ->
  MotionVersion_save a s =
    (Ok tt, with_db (with_versions (update_version_row v i <$> versions (db s)) (db s)) s).
Proof.
  intros Hv Hpk Hi Hm Ht Hx. unfold MotionVersion_save.
  rewrite bind_eq, (deref_eq _ _ _ Hv), Hm, Ht, Hx. msimpl. rewrite Hpk.
  rewrite decide_True by done. reflexivity.
Qed.

(** ** The first half of [save] *)

Lemma prelude_spec s :
  state_ok s ->
  ∃ s0 s1,
    (if decide (state_id (self s) = "") then reset_state else mret tt) s = (Ok tt, s0)
    ∧ Model_save s0 = (Ok tt, s1)
    ∧ prepared s s1.
Proof.
  intros Hok.
  assert (∃ m0, (if decide (state_id (self s) = "") then reset_state else mret tt) s
                = (Ok tt, with_self m0 s)
                ∧ m0 = with_state_id (state_id m0) (self s)) as (m0 & E0 & Hm0).
  { destruct (decide (state_id (self s) = "")) as [E|E].
    - destruct Hok as [?|[d Hd]]; [done|]. unfold reset_state. rewrite Hd.
      eexists. split; [reflexivity|]. done.
    - exists (self s). split; [by destruct s|by destruct (self s)]. }
  exists (with_self m0 s). rewrite E0.
  unfold Model_save. msimpl.
  assert (Hpk : pk m0 = pk (self s)) by (by rewrite Hm0).
  destruct (pk m0) as [i|] eqn:Ei.
  - destruct (decide (i ∈ mr_id <$> motions (db s))) as [Hi|Hi].
    + eexists. split; [done|]. split; [reflexivity|]. split; simpl; try done.
      * rewrite Hm0. by destruct (self s).
      * exists i. split; [done|]. split; [|split; [congruence|congruence]].
        rewrite <- list_fmap_compose. apply list_elem_of_fmap in Hi as (r & -> & Hr).
        apply list_elem_of_fmap. exists r. split; [|done]. simpl. by rewrite decide_True.
      * intros j Hj. rewrite <- list_fmap_compose.
        apply list_elem_of_fmap in Hj as (r & -> & Hr).
        apply list_elem_of_fmap. exists r. split; [|done]. simpl.
        destruct (decide (mr_id r = i)); simpl; congruence.
    + eexists. split; [done|]. split; [reflexivity|]. split; simpl; try done.
      * rewrite Hm0. by destruct (self s).
      * exists i. split; [done|]. split; [|split; [congruence|congruence]].
        rewrite fmap_app. apply elem_of_app. right. simpl. apply list_elem_of_here.
      * intros j Hj. rewrite fmap_app. apply elem_of_app. by left.
  - eexists. split; [done|]. split; [reflexivity|]. split; simpl; try done.
    + rewrite Hm0. by destruct (self s).
    + eexists. split; [done|]. split; [|split; [done|congruence]].
      rewrite fmap_app. apply elem_of_app. right. simpl. apply list_elem_of_here.
    + intros j Hj. rewrite fmap_app. apply elem_of_app. by left.
Qed.

(** ** The second half of [save] *)

Lemma nv_ok_weaken version s : nv_ok version s -> nv_ok None s.
Proof.
  unfold nv_ok. destruct (_new_version (self s)); [|done]. intros (_ & H). split; [done|exact H].
Qed.

Lemma final_same s s' x :
  db s' = db s -> pk (self s') = pk (self s) ->
  staged x (self s') = staged x (self s) -> final s' x = final s x.
Proof.
  intros Hd Hp Hs. unfold final, fb, ledger. rewrite Hd, Hp, Hs. by destruct x.
Qed.

Lemma written_same s s' v :
  db s' = db s -> pk (self s') = pk (self s) ->
  (∀ x, staged x (self s') = staged x (self s)) -> written s' v = written s v.
Proof.
  intros Hd Hp Hs. unfold written. apply fill_ext. intros x _. by apply final_same.
Qed.

Lemma NoDup_all_attrs : NoDup all_attrs.
Proof.
  unfold all_attrs.
  repeat (apply NoDup_cons; split;
          [rewrite ?elem_of_cons, ?elem_of_nil; intuition discriminate|]).
  apply NoDup_nil_2.
Qed.

Lemma save_version_new config nd s :
  nv_ok None s ->
  is_Some (_new_version (self s)) ∨ (nd = true ∧ need_new_version config = true) ->
  ∃ a s3,
    save_version config nd s = MotionVersion_save a s3
    ∧ db s3 = db s
    ∧ self s3 = with_new_version (_new_version (self s3)) (clear all_attrs (self s))
    ∧ length (heap s) ≤ length (heap s3)
    ∧ heap s3 !! a = Some (written s (fresh_version (pk (self s))))
    ∧ nv_ok (Some a) s3.
Proof.
  intros Hnv Hc. unfold save_version. fold (need_new_version config).
  change [Title; Text; Reason] with all_attrs.
  rewrite bind_eq. unfold gets at 1. cbn beta iota.
  assert (bool_decide (is_Some (_new_version (self s))) || nd && need_new_version config = true) as ->.
  { destruct Hc as [H|[-> ->]]; [by rewrite bool_decide_eq_true_2|by rewrite orb_true_r]. }
  assert (∃ a w s1, new_version s = (Ok a, s1) ∧ heap s1 !! a = Some w ∧ blank w
            ∧ db s1 = db s ∧ self s1 = with_new_version (Some a) (self s)
            ∧ length (heap s) ≤ length (heap s1))
    as (a & w & s1 & E1 & Hw & Hb & Hd1 & Hs1 & Hl1).
  { unfold new_version. msimpl. unfold nv_ok in Hnv.
    destruct (_new_version (self s)) as [b|] eqn:Eb.
    - destruct Hnv as (_ & w & Hw & Hb). exists b, w, s.
      split; [done|]. split; [done|]. split; [done|]. split; [done|].
      split; [|done]. rewrite <- Eb. by destruct (self s).
    - eexists _, _, _. split; [reflexivity|]. simpl.
      split; [apply list_lookup_middle; reflexivity|]. split; [done|].
      split; [done|]. split; [done|]. rewrite length_app. lia. }
  rewrite bind_eq, E1. rewrite bind_eq. unfold modify_self at 1, modify at 1. cbn beta iota.
  rewrite bind_eq. unfold gets at 1. cbn beta iota.
  rewrite bind_eq.
  set (s2 := with_self (with_new_version None (self s1)) s1).
  assert (Hw2 : heap s2 !! a = Some w) by done.
  rewrite (update_eq _ _ _ _ Hw2).
  set (s2' := with_heap _ s2).
  assert (Hv : heap s2' !! a = Some (fresh_version (pk (self s)))).
  { subst s2' s2. simpl. rewrite list_lookup_insert_eq by (by eapply lookup_lt_Some).
    f_equal. destruct Hb as (Hp & Ht & Hx & Hr). unfold fresh_version.
    rewrite Hp, Ht, Hx, Hr, Hs1. reflexivity. }
  assert (Hnv2 : nv_ok (Some a) s2') by done.
  destruct (write_attrs_spec a all_attrs _ s2' NoDup_all_attrs Hv Hnv2) as (s3 & E3 & H3).
  rewrite bind_eq, E3.
  exists a, s3. split; [reflexivity|].
  destruct H3 as [D3 S3 X3 C3 N3 K3]. split; [|split; [|split; [|split]]].
  - rewrite D3. subst s2' s2. simpl. done.
  - rewrite S3. subst s2' s2. cbn [self with_self with_heap].
    rewrite Hs1, !clear_with_new_version. done.
  - destruct X3 as [L3 _]. subst s2' s2. simpl in L3. rewrite length_insert in L3. lia.
  - rewrite C3. f_equal. apply written_same.
    + done.
    + subst s2' s2. simpl. by rewrite Hs1.
    + intros x. subst s2' s2. simpl. rewrite Hs1. by destruct x.
  - done.
Qed.

Lemma written_fields s v :
  mv_pk (written s v) = mv_pk v ∧ mv_motion_id (written s v) = mv_motion_id v
  ∧ mv_title (written s v) = final s Title ∧ mv_text (written s v) = final s Text
  ∧ mv_reason (written s v) = final s Reason.
Proof. done. Qed.

Lemma state_id_clear attrs m : state_id (clear attrs m) = state_id m.
Proof.
  revert m. induction attrs as [|x rest IH]; intros m; [done|].
  simpl. rewrite IH. by destruct x.
Qed.

Lemma version_clear attrs m : _version (clear attrs m) = _version m.
Proof.
  revert m. induction attrs as [|x rest IH]; intros m; [done|].
  simpl. rewrite IH. by destruct x.
Qed.

Lemma staged_clear_all x m : staged x (clear all_attrs m) = None.
Proof. by destruct x. Qed.

Lemma kept_of_cleared s s' n :
  self s' = with_new_version n (clear all_attrs (self s)) ->
  length (heap s) ≤ length (heap s') -> nv_ok None s' -> kept s s'.
Proof.
  intros Hs Hl Hnv. split; [..|done|done]; rewrite Hs; cbn [pk state_id _version with_new_version].
  - apply pk_clear.
  - apply state_id_clear.
  - apply version_clear.
Qed.

Lemma nv_ok_insert a v s :
  nv_ok (Some a) s -> nv_ok None (with_heap (<[a := v]> (heap s)) s).
Proof.
  unfold nv_ok. simpl. destruct (_new_version (self s)) as [b|]; [|done].
  intros (Hne & w & Hw & Hb). split; [done|]. exists w. split; [|done].
  rewrite list_lookup_insert_ne; [done|congruence].
Qed.

Lemma save_version_new_null config nd s :
  nv_ok None s ->
  is_Some (_new_version (self s)) ∨ (nd = true ∧ need_new_version config = true) ->
  pk (self s) = None ∨ final s Title = None ∨ final s Text = None ->
  ∃ s3, save_version config nd s = (Raise IntegrityError, s3)
    ∧ db s3 = db s ∧ kept s s3.
Proof.
  intros Hnv Hc Hnull.
  destruct (save_version_new config nd s Hnv Hc) as (a & s3 & E & Hd & Hs & Hl & Hv & Hnv3).
  exists s3. rewrite E. split; [|split; [done|]].
  - apply (MotionVersion_save_null _ _ _ Hv).
    destruct (written_fields s (fresh_version (pk (self s)))) as (_ & -> & -> & -> & _).
    exact Hnull.
  - eapply kept_of_cleared; [exact Hs|done|by eapply nv_ok_weaken].
Qed.

Lemma save_version_new_ok config nd s i t x :
  nv_ok None s ->
  is_Some (_new_version (self s)) ∨ (nd = true ∧ need_new_version config = true) ->
  pk (self s) = Some i -> final s Title = Some t -> final s Text = Some x ->
  ∃ s4, save_version config nd s = (Ok tt, s4)
    ∧ db s4 = with_versions (versions (db s) ++ [
               row_of (next_id (vr_id <$> versions (db s))) i
                 (written s (fresh_version (Some i)))]) (db s)
    ∧ (∀ y, staged y (self s4) = None)
    ∧ kept s s4.
Proof.
  intros Hnv Hc Hi Ht Hx.
  destruct (save_version_new config nd s Hnv Hc) as (a & s3 & E & Hd & Hs & Hl & Hv & Hnv3).
  rewrite Hi in Hv.
  destruct (written_fields s (fresh_version (Some i))) as (Hf1 & Hf2 & Hf3 & Hf4 & Hf5).
  rewrite E, (MotionVersion_save_insert a _ i t x s3 Hv); [|done|done|congruence|congruence].
  eexists. split; [reflexivity|]. cbn [db self heap]. split; [|split].
  - rewrite Hd. unfold row_of. rewrite Hf3, Hf4, Ht, Hx. reflexivity.
  - intros y. rewrite Hs, staged_with_new_version. apply staged_clear_all.
  - eapply kept_of_cleared; cbn [db self heap]; [exact Hs|by rewrite length_insert|].
    by apply (nv_ok_insert a _ s3).
Qed.

Lemma greatest_id_elem rows r : greatest_id rows = Some r -> r ∈ rows.
Proof.
  revert r. induction rows as [|r0 rows IH]; intros r; [done|].
  simpl. destruct (greatest_id rows) as [r'|].
  - destruct (decide (vr_id r0 < vr_id r')); intros [= <-].
    + apply list_elem_of_further. by apply IH.
    + apply list_elem_of_here.
  - intros [= <-]. apply list_elem_of_here.
Qed.

Lemma ledger_elem s r :
  ledger s = Some r -> r ∈ versions (db s) ∧ pk (self s) = Some (vr_motion r).
Proof.
  unfold ledger, versions_of. intros H. destruct (pk (self s)) as [i|]; [|done].
  apply greatest_id_elem, list_elem_of_filter in H as [-> H]. done.
Qed.

Lemma save_version_none config s :
  _new_version (self s) = None -> save_version config false s = (Ok tt, s).
Proof.
  intros Hn. unfold save_version. rewrite bind_eq. unfold gets at 1. cbn beta iota.
  rewrite Hn. rewrite bool_decide_eq_false_2 by (by intros [? [=]]). reflexivity.
Qed.

Lemma save_version_last config s r :
  nv_ok None s -> _new_version (self s) = None -> need_new_version config = false ->
  ledger s = Some r ->
  ∃ a s3,
    save_version config true s = MotionVersion_save a s3
    ∧ db s3 = db s
    ∧ self s3 = with_new_version None (clear all_attrs (self s))
    ∧ length (heap s) ≤ length (heap s3)
    ∧ heap s3 !! a = Some (written s (instance_of_row r))
    ∧ nv_ok (Some a) s3.
Proof.
  intros Hnv Hn Hneed Hl. unfold save_version. fold (need_new_version config).
  change [Title; Text; Reason] with all_attrs.
  rewrite bind_eq. unfold gets at 1. cbn beta iota.
  rewrite Hn, Hneed. rewrite bool_decide_eq_false_2 by (by intros [? [=]]).
  cbn [orb andb negb].
  destruct (last_version_spec None s Hnv I) as (a & o & s1 & E1 & Ho & Hf & _ & Hr & _).
  assert (Ho' : o = instance_of_row r).
  { assert (last_version s = (Ok (length (heap s)), with_heap (heap s ++ [instance_of_row r]) s)) as E.
    { unfold last_version. msimpl. fold (ledger s). by rewrite Hl. }
    rewrite E in E1. injection E1 as <- <-. simpl in Ho.
    rewrite list_lookup_middle in Ho by done. congruence. }
  subst o.
  assert (Hnv1 : nv_ok (Some a) s1).
  { pose proof (reads_keep _ _ _ Hr) as Hk. unfold nv_ok. rewrite Hk, Hn; [done|]. rewrite Hl. eauto. }
  destruct (write_attrs_spec a all_attrs _ s1 NoDup_all_attrs Ho Hnv1) as (s3 & E3 & H3).
  rewrite bind_eq, E1, bind_eq, E3.
  exists a, s3. split; [reflexivity|].
  pose proof (reads_ledger _ _ _ Hr) as HL1.
  destruct Hr as [D1 S1 [L1 _] N1 K1], H3 as [D3 S3 [L3 _] C3 N3 K3].
  assert (Hnv1' : _new_version (self s1) = None).
  { rewrite K1, Hn; [done|]. rewrite Hl; eauto. }
  split; [|split; [|split; [|split]]].
  - congruence.
  - rewrite S3, K3, Hnv1' by (rewrite HL1, Hl; eauto).
    rewrite S1, Hnv1', clear_with_new_version. reflexivity.
  - lia.
  - rewrite C3. f_equal. apply written_same; [done|by rewrite S1|].
    intros x. by rewrite S1, staged_with_new_version.
  - done.
Qed.

Lemma update_version_row_id v i (rows : list VersionRow) :
  vr_id <$> (update_version_row v i <$> rows) = vr_id <$> rows.
Proof.
  rewrite <- list_fmap_compose. apply list_fmap_ext. intros _ r _. simpl.
  unfold update_version_row. destruct (decide (vr_id r = i)); simpl; congruence.
Qed.

Lemma save_version_last_null config s r :
  nv_ok None s -> _new_version (self s) = None -> need_new_version config = false ->
  ledger s = Some r ->
  final s Title = None ∨ final s Text = None ->
  ∃ s3, save_version config true s = (Raise IntegrityError, s3)
    ∧ db s3 = db s ∧ kept s s3.
Proof.
  intros Hnv Hn Hneed Hl Hnull.
  destruct (save_version_last config s r Hnv Hn Hneed Hl) as (a & s3 & E & Hd & Hs & Hlen & Hv & Hnv3).
  exists s3. rewrite E. split; [|split; [done|]].
  - apply (MotionVersion_save_null _ _ _ Hv).
    destruct (written_fields s (instance_of_row r)) as (_ & _ & -> & -> & _). by right.
  - eapply kept_of_cleared; [exact Hs|done|by eapply nv_ok_weaken].
Qed.

Lemma save_version_last_ok config s r t x :
  nv_ok None s -> _new_version (self s) = None -> need_new_version config = false ->
  ledger s = Some r ->
  final s Title = Some t -> final s Text = Some x ->
  ∃ s4, save_version config true s = (Ok tt, s4)
    ∧ db s4 = with_versions
               (update_version_row (written s (instance_of_row r)) (vr_id r)
                  <$> versions (db s)) (db s)
    ∧ (∀ y, staged y (self s4) = None)
    ∧ kept s s4.
Proof.
  intros Hnv Hn Hneed Hl Ht Hx.
  destruct (save_version_last config s r Hnv Hn Hneed Hl) as (a & s3 & E & Hd & Hs & Hlen & Hv & Hnv3).
  destruct (ledger_elem _ _ Hl) as [Hr Hpk].
  destruct (written_fields s (instance_of_row r)) as (Hf1 & Hf2 & Hf3 & Hf4 & Hf5).
  rewrite E, (MotionVersion_save_update a _ (vr_id r) (vr_motion r) t x s3 Hv);
    [|done| |done|congruence|congruence].
  2: { rewrite Hd. by apply list_elem_of_fmap_2. }
  eexists. split; [reflexivity|]. cbn [db self heap with_db]. split; [|split].
  - by rewrite Hd.
  - intros y. rewrite Hs, staged_with_new_version. apply staged_clear_all.
  - eapply kept_of_cleared; cbn [db self heap]; [exact Hs|done|by eapply nv_ok_weaken].
Qed.

(** ** [save] as a whole *)

Lemma prepared_nv s s1 : prepared s s1 -> nv_ok None s -> nv_ok None s1.
Proof.
  intros [_ _ _ _ Hh Hs _ _]. unfold nv_ok. by rewrite Hs, Hh.
Qed.

Lemma prepared_valid s s1 :
  prepared s s1 -> valid (_version (self s)) s -> valid (_version (self s1)) s1.
Proof.
  intros [_ _ _ _ Hh Hs _ _]. rewrite Hs. unfold valid. cbn. by rewrite Hh.
Qed.

Lemma save_head config s :
  nv_ok None s -> valid (_version (self s)) s -> state_ok s ->
  ∃ s1 s2,
    prepared s s1 ∧ reads None s1 s2
    ∧ (ledger s1 = None -> is_Some (_new_version (self s2)))
    ∧ save config s =
        save_version config (bool_decide (Exists (fun x => cur s1 x ≠ fb s1 x) all_attrs)) s2.
Proof.
  intros Hnv Hver Hok.
  destruct (prelude_spec s Hok) as (s0 & s1 & E0 & E1 & Hp).
  destruct (new_data_spec None all_attrs s1 (prepared_nv _ _ Hp Hnv) I
              (prepared_valid _ _ Hp Hver)) as (s2 & E2 & Hr & Hn).
  exists s1, s2. split; [done|]. split; [done|]. split; [by apply Hn|].
  unfold save. change [Title; Text; Reason] with all_attrs.
  rewrite bind_eq. unfold gets at 1. cbn beta iota.
  rewrite bind_eq, E0, bind_eq, E1, bind_eq, E2. reflexivity.
Qed.

(** ** The invariant *)

Lemma sorted_snoc_next ids :
  StronglySorted lt ids -> StronglySorted lt (ids ++ [next_id ids]).
Proof.
  intros H. apply StronglySorted_app_2; [|done|repeat constructor].
  intros x y Hx ->%list_elem_of_singleton. unfold next_id.
  apply max_list_elem_of_le in Hx. lia.
Qed.

Lemma db_ok_same d d' :
  versions d' = versions d -> supporters d' = supporters d ->
  (∀ j, j ∈ mr_id <$> motions d -> j ∈ mr_id <$> motions d') ->
  db_ok d -> db_ok d'.
Proof.
  intros Hv Hs Hm [H1 H2 H3]. split.
  - by rewrite Hv.
  - intros r Hr. rewrite Hv in Hr. by apply Hm, H2.
  - by rewrite Hs.
Qed.

Lemma db_ok_insert d i v :
  i ∈ mr_id <$> motions d -> db_ok d ->
  db_ok (with_versions (versions d ++ [row_of (next_id (vr_id <$> versions d)) i v]) d).
Proof.
  intros Hi [H1 H2 H3]. split; simpl.
  - rewrite fmap_app. simpl. by apply sorted_snoc_next.
  - intros r [Hr| ->%list_elem_of_singleton]%elem_of_app; [by apply H2|done].
  - done.
Qed.

Lemma db_ok_update d r v :
  r ∈ versions d -> mv_motion_id v = Some (vr_motion r) -> db_ok d ->
  db_ok (with_versions (update_version_row v (vr_id r) <$> versions d) d).
Proof.
  intros Hr Hv [H1 H2 H3]. split; simpl.
  - by rewrite update_version_row_id.
  - intros r' (r0 & -> & Hr0)%list_elem_of_fmap. unfold update_version_row.
    destruct (decide (vr_id r0 = vr_id r)); simpl; [|by apply H2].
    rewrite Hv. simpl. by apply H2.
  - done.
Qed.

Lemma Inv_kept s s' : valid (_version (self s)) s -> kept s s' -> db_ok (db s') -> Inv s'.
Proof.
  intros Hv [_ _ Hk Hl Hnv] Hdb. split; [done|done|].
  rewrite Hk. destruct (_version (self s)); simpl in *; [lia|done].
Qed.

Lemma save_no_state config s :
  state_id (self s) = "" -> workflow.get_state "default" = None ->
  save config s = (Raise WorkflowError, s).
Proof.
  intros E Hd. unfold save. rewrite bind_eq. unfold gets at 1. cbn beta iota.
  rewrite bind_eq, decide_True by done. unfold reset_state. by rewrite Hd.
Qed.

Lemma Inv_save config s : Inv s -> Inv (save config s).2.
Proof.
  intros HI. pose proof HI as [Hdb Hnv Hver].
  assert (state_ok s ∨ (state_id (self s) = "" ∧ workflow.get_state "default" = None)) as [Hok|[E Hd]].
  { unfold state_ok. destruct (decide (state_id (self s) = "")); [|by left; left].
    destruct (workflow.get_state "default"); [left; right; eauto|by right]. }
  2: { by rewrite save_no_state. }
  destruct (save_head config s Hnv Hver Hok) as (s1 & s2 & Hp & Hr & Hn & E). rewrite E.
  set (nd := bool_decide _). clearbody nd. clear E.
  assert (Hdb2 : db_ok (db s2)).
  { rewrite (reads_db _ _ _ Hr). eapply db_ok_same; [..|exact Hdb].
    - apply Hp. - apply Hp. - apply Hp. }
  pose proof (reads_nv _ _ _ Hr) as Hnv2.
  assert (Hver2 : valid (_version (self s2)) s2).
  { rewrite (reads_version _ _ _ Hr). eapply reads_valid; [exact Hr|].
    by apply (prepared_valid s). }
  destruct (prep_pk _ _ Hp) as (i & Hi & Him & _).
  assert (Hi2 : pk (self s2) = Some i) by (by rewrite (reads_self _ _ _ Hr)).
  assert (Hcase : (is_Some (_new_version (self s2)) ∨ (nd = true ∧ need_new_version config = true))
                  ∨ (_new_version (self s2) = None ∧ nd = true ∧ need_new_version config = false)
                  ∨ (_new_version (self s2) = None ∧ nd = false)).
  { destruct (_new_version (self s2)); [left; left; eauto|].
    destruct nd; [|by right; right]. destruct (need_new_version config); [left|right; left]; eauto. }
  destruct Hcase as [Hc|[(Hnone & -> & Hneed)|(Hnone & ->)]].
  - destruct (final s2 Title) as [t|] eqn:Et; [destruct (final s2 Text) as [x|] eqn:Ex|].
    + destruct (save_version_new_ok config nd s2 i t x Hnv2 Hc Hi2 Et Ex) as (s4 & -> & Hd4 & _ & Hk).
      simpl. apply (Inv_kept s2); [done|done|]. rewrite Hd4. apply db_ok_insert; [|done].
      by rewrite (reads_db _ _ _ Hr).
    + destruct (save_version_new_null config nd s2 Hnv2 Hc) as (s3 & -> & Hd3 & Hk); [auto|].
      simpl. apply (Inv_kept s2); [done|done|]. by rewrite Hd3.
    + destruct (save_version_new_null config nd s2 Hnv2 Hc) as (s3 & -> & Hd3 & Hk); [auto|].
      simpl. apply (Inv_kept s2); [done|done|]. by rewrite Hd3.
  - assert (∃ r, ledger s2 = Some r) as [r Hl].
    { rewrite (reads_ledger _ _ _ Hr). destruct (ledger s1) as [r|]; [eauto|].
      destruct Hn as [? Hn]; [done|]. congruence. }
    destruct (final s2 Title) as [t|] eqn:Et; [destruct (final s2 Text) as [x|] eqn:Ex|].
    + destruct (save_version_last_ok config s2 r t x Hnv2 Hnone Hneed Hl Et Ex) as (s4 & -> & Hd4 & _ & Hk).
      simpl. apply (Inv_kept s2); [done|done|]. rewrite Hd4.
      apply db_ok_update; [by apply ledger_elem|done|done].
    + destruct (save_version_last_null config s2 r Hnv2 Hnone Hneed Hl) as (s3 & -> & Hd3 & Hk); [auto|].
      simpl. apply (Inv_kept s2); [done|done|]. by rewrite Hd3.
    + destruct (save_version_last_null config s2 r Hnv2 Hnone Hneed Hl) as (s3 & -> & Hd3 & Hk); [auto|].
      simpl. apply (Inv_kept s2); [done|done|]. by rewrite Hd3.
  - rewrite save_version_none by done. simpl. by split.
Qed.

Lemma Inv_reads s s' : Inv s -> reads None s s' -> Inv s'.
Proof.
  intros [Hdb Hnv Hver] Hr. split.
  - by rewrite (reads_db _ _ _ Hr).
  - apply Hr.
  - rewrite (reads_version _ _ _ Hr). by eapply reads_valid.
Qed.

Lemma Inv_with_self m s :
  Inv s -> _new_version m = _new_version (self s) -> _version m = _version (self s) ->
  Inv (with_self m s).
Proof.
  intros [Hdb Hnv Hver] Hn Hv. split; [done| |].
  - unfold nv_ok in *. simpl. by rewrite Hn.
  - unfold valid in *. simpl. by rewrite Hv.
Qed.

Lemma Inv_with_db d s : Inv s -> db_ok d -> Inv (with_db d s).
Proof. intros [Hdb Hnv Hver] Hd. by split. Qed.

Lemma Inv_new_version s : Inv s -> Inv (new_version s).2.
Proof.
  intros HI. pose proof HI as [Hdb Hnv Hver]. unfold new_version. msimpl.
  destruct (_new_version (self s)) as [b|] eqn:Eb; simpl; [done|].
  split; simpl; [done| |].
  - unfold nv_ok. simpl. split; [done|]. eexists. split; [by apply list_lookup_middle|done].
  - destruct (_version (self s)); simpl in *; [rewrite length_app; lia|done].
Qed.

Lemma Inv_last_version s : Inv s -> Inv (last_version s).2.
Proof.
  intros HI. destruct (last_version_spec None s (inv_new_version _ HI) I)
    as (a & o & s' & -> & _ & _ & _ & Hr & _).
  by apply (Inv_reads s).
Qed.

Lemma Inv_get_version s : Inv s -> Inv (get_version s).2.
Proof.
  intros HI. unfold get_version. msimpl. destruct (_version (self s)); [done|].
  by apply Inv_last_version.
Qed.

Lemma Inv_getattr_self x s : Inv s -> Inv (getattr_self x s).2.
Proof.
  intros HI. unfold getattr_self. rewrite bind_eq. unfold gets at 1. cbn beta iota.
  destruct (staged x (self s)); [done|]. rewrite bind_eq.
  pose proof (Inv_get_version s HI) as H.
  destruct (get_version s) as [[a|e] s']; simpl in *; [|done].
  rewrite bind_eq. unfold deref. destruct (heap s' !! a); done.
Qed.

Lemma Inv_set_version v s : Inv s -> call_ok (CSetVersion v) s -> Inv (set_version v s).2.
Proof.
  intros HI Hok. pose proof HI as [Hdb Hnv Hver]. destruct v as [|n|a|]; simpl.
  - split; [done|done|done].
  - msimpl. destruct (decide (n < 0)%Z); [done|].
    destruct (versions_of _ _ !! _); simpl; [|by destruct (decide (n < 2 ^ 63)%Z)].
    split; simpl; [done| |rewrite length_app; simpl; lia].
    unfold nv_ok in *. simpl. destruct (_new_version (self s)) as [b|]; [|done].
    destruct Hnv as (_ & w & Hw & Hb). split; [done|]. exists w. split; [|done].
    rewrite lookup_app_l; [done|by eapply lookup_lt_Some].
  - split; [done|done|]. exact Hok.
  - done.
Qed.

Lemma supporter_filter_nil p mid (l : list SupporterRow) :
  filter (fun r => sr_person r = p) (filter (fun r => sr_motion r = mid) l) = []
  ↔ (p, mid) ∉ supporter_key <$> l.
Proof.
  split.
  - intros H (r & [= Hp Hm] & Hr)%list_elem_of_fmap.
    assert (r ∈ filter (fun r => sr_person r = p) (filter (fun r => sr_motion r = mid) l)) as Hin.
    { apply list_elem_of_filter. split; [done|]. apply list_elem_of_filter. by split. }
    rewrite H in Hin. by apply elem_of_nil in Hin.
  - intros H. destruct (filter _ _) as [|r rest] eqn:E; [done|]. exfalso. apply H.
    assert (r ∈ filter (fun r => sr_person r = p) (filter (fun r => sr_motion r = mid) l)) as Hin.
    { rewrite E. apply list_elem_of_here. }
    apply list_elem_of_filter in Hin as [Hp Hin]. apply list_elem_of_filter in Hin as [Hm Hin].
    apply list_elem_of_fmap. exists r. split; [|done]. unfold supporter_key. congruence.
Qed.

Lemma support_spec s st mid p :
  workflow.get_state (state_id (self s)) = Some st -> workflow.support st = true ->
  pk (self s) = Some mid ->
  support p s =
    (Ok tt,
     if decide ((p, mid) ∈ supporter_key <$> supporters (db s)) then s
     else with_db (with_supporters (supporters (db s) ++ [
            {| sr_id := next_id (sr_id <$> supporters (db s)); sr_person := p;
               sr_motion := mid |}]) (db s)) s).
Proof.
  intros Hst Hsup Hpk. unfold support, state_attr, get_state, is_supporter, MotionSupporter_save.
  msimpl. rewrite Hst. msimpl. rewrite Hsup, Hpk. simpl.
  destruct (decide ((p, mid) ∈ supporter_key <$> supporters (db s))) as [Hin|Hin].
  - rewrite bool_decide_eq_true_2; [done|]. by rewrite supporter_filter_nil; intros ?.
  - rewrite bool_decide_eq_false_2; [simpl; by rewrite Hpk|].
    rewrite supporter_filter_nil. by intros ?.
Qed.

Lemma db_ok_support d p mid :
  (p, mid) ∉ supporter_key <$> supporters d -> db_ok d ->
  db_ok (with_supporters (supporters d ++ [
    {| sr_id := next_id (sr_id <$> supporters d); sr_person := p; sr_motion := mid |}]) d).
Proof.
  intros Hin [H1 H2 H3]. split; simpl; [done|done|].
  rewrite fmap_app. apply NoDup_app. split; [done|]. split; [|apply NoDup_singleton].
  intros k Hk ->%list_elem_of_singleton. done.
Qed.

Lemma Inv_support p s : Inv s -> Inv (support p s).2.
Proof.
  intros HI. destruct (workflow.get_state (state_id (self s))) as [st|] eqn:Hst.
  2: { unfold support, state_attr, get_state. msimpl. by rewrite Hst. }
  destruct (workflow.support st) eqn:Hsup.
  2: { unfold support, state_attr, get_state. msimpl. rewrite Hst. msimpl. rewrite Hsup.
       msimpl. by rewrite Hst. }
  destruct (pk (self s)) as [mid|] eqn:Hpk.
  - rewrite (support_spec s st mid p Hst Hsup Hpk). simpl.
    destruct (decide _); [done|]. apply Inv_with_db; [done|].
    apply db_ok_support; [done|apply HI].
  - unfold support, state_attr, get_state, is_supporter, MotionSupporter_save.
    msimpl. rewrite Hst. msimpl. rewrite Hsup, Hpk. simpl. by rewrite Hpk.
Qed.

Lemma NoDup_fmap_filter {A B} (f : A -> B) (P : A -> Prop) `{∀ x, Decision (P x)} (l : list A) :
  NoDup (f <$> l) -> NoDup (f <$> filter P l).
Proof.
  induction l as [|x l IH]; [done|]. rewrite fmap_cons, NoDup_cons. intros [Hx Hl].
  rewrite filter_cons. destruct (decide (P x)); [|by apply IH].
  rewrite fmap_cons. apply NoDup_cons. split; [|by apply IH].
  intros (y & Hy & Hin)%list_elem_of_fmap. apply list_elem_of_filter in Hin as [_ Hin].
  apply Hx. apply list_elem_of_fmap. eauto.
Qed.

Lemma Inv_unsupport p s : Inv s -> Inv (unsupport p s).2.
Proof.
  intros HI. unfold unsupport, state_attr, get_state. msimpl.
  destruct (workflow.get_state (state_id (self s))) as [st|] eqn:Hst; msimpl; [|done].
  destruct (workflow.support st); msimpl; [|by rewrite Hst].
  destruct (pk (self s)); simpl; [|done].
  apply Inv_with_db; [done|]. destruct HI as [[H1 H2 H3] _ _]. split; simpl; [done|done|].
  by apply NoDup_fmap_filter.
Qed.

Lemma Inv_create_poll s : Inv s -> Inv (create_poll s).2.
Proof.
  intros HI. unfold create_poll, state_attr, get_state, MotionPoll_create, set_options. msimpl.
  destruct (workflow.get_state (state_id (self s))) as [st|] eqn:Hst; msimpl; [|done].
  destruct (workflow.poll st); msimpl; [|by rewrite Hst].
  destruct (pk (self s)); simpl; [|done].
  destruct (decide _); simpl; [done|].
  destruct HI as [[H1 H2 H3] Hnv Hver]. by split.
Qed.

Lemma Inv_set_state x s : Inv s -> Inv (set_state x s).2.
Proof.
  intros HI. unfold set_state, state_attr, get_state. msimpl.
  destruct x as [n|t]; msimpl.
  - destruct (workflow.get_state (state_id (self s))); msimpl; [|done].
    destruct (decide _); simpl; [|done]. by apply Inv_with_self.
  - destruct (workflow.get_state t); msimpl; [|done].
    destruct (workflow.get_state (state_id (self s))); msimpl; [|done].
    destruct (decide _); simpl; [|done]. by apply Inv_with_self.
Qed.

Lemma Inv_reset_state s : Inv s -> Inv (reset_state s).2.
Proof.
  intros HI. unfold reset_state. destruct (workflow.get_state "default"); [|done].
  by apply Inv_with_self.
Qed.

Lemma Inv_call config c s : Inv s -> call_ok c s -> Inv (call config c s).2.
Proof.
  intros HI Hok. destruct c; simpl.
  - by apply Inv_save.
  - unfold get_title. rewrite bind_eq. pose proof (Inv_getattr_self Title s HI).
    by destruct (getattr_self Title s) as [[]].
  - unfold get_text. rewrite bind_eq. pose proof (Inv_getattr_self Text s HI).
    by destruct (getattr_self Text s) as [[]].
  - unfold get_reason. rewrite bind_eq. pose proof (Inv_getattr_self Reason s HI).
    by destruct (getattr_self Reason s) as [[]].
  - by apply Inv_with_self.
  - by apply Inv_with_self.
  - by apply Inv_with_self.
  - rewrite bind_eq. pose proof (Inv_new_version s HI). by destruct (new_version s) as [[]].
  - rewrite bind_eq. pose proof (Inv_last_version s HI). by destruct (last_version s) as [[]].
  - rewrite bind_eq. pose proof (Inv_get_version s HI). by destruct (get_version s) as [[]].
  - by apply Inv_set_version.
  - done.
  - by apply Inv_support.
  - by apply Inv_unsupport.
  - rewrite bind_eq. pose proof (Inv_create_poll s HI). by destruct (create_poll s) as [[]].
  - done.
  - by apply Inv_set_state.
  - by apply Inv_reset_state.
Qed.

Lemma Inv_initial : Inv initial.
Proof.
  split; [split|..]; simpl; [constructor|by intros r ?%elem_of_nil|constructor|done|done].
Qed.

Lemma reachable_Inv s : reachable s -> Inv s.
Proof.
  induction 1 as [|config c s _ IH Hok|s _ IH|r s _ IH Hr|v s _ IH].
  - apply Inv_initial.
  - by apply Inv_call.
  - destruct IH as [Hdb _ _]. by split.
  - destruct IH as [Hdb _ _]. by split.
  - destruct IH as [Hdb Hnv Hver]. split; [done| |].
    + unfold nv_ok in *. simpl. destruct (_new_version (self s)) as [b|]; [|done].
      destruct Hnv as (_ & w & Hw & Hb). split; [done|]. exists w. split; [|done].
      rewrite lookup_app_l; [done|by eapply lookup_lt_Some].
    + unfold valid in *. cbn [self heap with_heap].
      destruct (_version (self s)); [rewrite length_app; lia|done].
Qed.

(** ** States *)

(** C4. For a motion whose current state resolves, [set_state] succeeds
    exactly when the requested state is among the [next_states] of the
    current one, and then only [state_id] changes; otherwise it raises
    [WorkflowError] and leaves the store, [state_id] included, as it was.
    A token is first resolved by the registry; a [State] stands for itself. *)
Theorem set_state_iff_next_state (s : store) (c : workflow.State) (x : StateArg) :
  workflow.get_state (state_id (self s)) = Some c ->
  ((∃ s', set_state x s = (Ok tt, s'))
     ↔ ∃ n, resolve x = Some n ∧ n ∈ workflow.next_states c)
  ∧ (∀ n, resolve x = Some n -> n ∈ workflow.next_states c ->
       set_state x s = (Ok tt, with_self (with_state_id (workflow.id n) (self s)) s))
  ∧ ((¬ ∃ n, resolve x = Some n ∧ n ∈ workflow.next_states c) ->
       set_state x s = (Raise WorkflowError, s)).
Proof.
  intros Hc.
  assert (Hyes : ∀ n, resolve x = Some n -> n ∈ workflow.next_states c ->
       set_state x s = (Ok tt, with_self (with_state_id (workflow.id n) (self s)) s)).
  { intros n Hn Hin. unfold set_state, state_attr, get_state. destruct x as [m|t]; simpl in Hn.
    - injection Hn as ->. msimpl. rewrite Hc. msimpl. by rewrite decide_True.
    - msimpl. rewrite Hn. msimpl. rewrite Hc. msimpl. by rewrite decide_True. }
  assert (Hno : (¬ ∃ n, resolve x = Some n ∧ n ∈ workflow.next_states c) ->
       set_state x s = (Raise WorkflowError, s)).
  { intros Hn. unfold set_state, state_attr, get_state. destruct x as [m|t]; simpl in Hn.
    - msimpl. rewrite Hc. msimpl. rewrite decide_False; [done|]. intros ?. apply Hn. eauto.
    - msimpl. destruct (workflow.get_state t) as [m|] eqn:E; msimpl; [|done].
      rewrite Hc. msimpl. rewrite decide_False; [done|]. intros ?. apply Hn. eauto. }
  split; [|split; assumption].
  split.
  - intros [s' Hs']. destruct (resolve x) as [n|] eqn:E.
    + destruct (decide (n ∈ workflow.next_states c)) as [|Hn]; [eauto|].
      rewrite Hno in Hs'; [discriminate|]. intros (n' & [= <-] & ?). done.
    + rewrite Hno in Hs'; [discriminate|]. intros (n' & [=] & ?).
  - intros (n & Hn & Hin). eexists. by apply Hyes.
Qed.

(** ** Polls *)

Lemma or_0_aggregate_max ns : or_0 (aggregate_max ns) = max_list ns.
Proof.
  destruct ns as [|n ns]; [done|]. unfold aggregate_max, or_0.
  by destruct (max_list (n :: ns)).
Qed.

(** C5, as the code has it.  In a state that allows polls, [create_poll]
    on a stored motion
    returns a new poll of that motion whose [poll_number] is one more than
    the greatest [poll_number] among the motion's polls, the greatest of
    none being 0; the poll is appended to the table together with one
    option. *)
Theorem create_poll_next_number (s : store) (c : workflow.State) (mid : nat) :
  workflow.get_state (state_id (self s)) = Some c ->
  workflow.poll c = true ->
  pk (self s) = Some mid ->
  ∃ p s', create_poll s = (Ok p, s')
    ∧ pr_poll_number p = 1 + max_list (pr_poll_number <$> polls_of (Some mid) (db s))
    ∧ pr_motion p = mid
    ∧ polls (db s') = polls (db s) ++ [p]
    ∧ options (db s') = options (db s) ++ [
        {| or_id := next_id (or_id <$> options (db s)); or_poll := pr_id p |}]
    ∧ versions (db s') = versions (db s)
    ∧ self s' = self s.
Proof.
  intros Hc Hp Hpk. unfold create_poll, state_attr, get_state, MotionPoll_create, set_options.
  msimpl. rewrite Hc. msimpl. rewrite Hp, Hpk. simpl.
  rewrite or_0_aggregate_max, decide_False by (apply max_list_not_elem_of_gt; lia).
  simpl. eexists _, _. split; [reflexivity|]. simpl. split; [lia|done].
Qed.

(** C6. In a state whose [poll] flag is false, [create_poll] raises
    [WorkflowError] and the store is what it was: no poll, no option, no
    version is written and [state_id] keeps its value. *)
Theorem create_poll_denied (s : store) (c : workflow.State) :
  workflow.get_state (state_id (self s)) = Some c ->
  workflow.poll c = false ->
  create_poll s = (Raise WorkflowError, s).
Proof.
  intros Hc Hp. unfold create_poll, state_attr, get_state. msimpl.
  rewrite Hc. msimpl. rewrite Hp. msimpl. by rewrite Hc.
Qed.

(** ** Version numbers *)

(** C10. The [version_number] of an instance without primary key is the
    string ['new'], hence no integer. *)
Theorem version_number_unsaved (d : DB) (v : MotionVersion) :
  mv_pk v = None ->
  version_number d v = PyStr "new" ∧ ∀ n, version_number d v ≠ PyInt n.
Proof.
  intros H. unfold version_number. rewrite H. split; [reflexivity|discriminate].
Qed.

Lemma version_number_row d r :
  version_number d (instance_of_row r) =
    PyInt (length (filter (fun r' => vr_id r' ≤ vr_id r)
                     (filter (fun r' => vr_motion r' = vr_motion r) (versions d)))).
Proof.
  unfold version_number. simpl.
  rewrite (list_filter_iff (fun r' => Some (vr_motion r') = Some (vr_motion r))
             (fun r' => vr_motion r' = vr_motion r)); [done|].
  intros r'. split; congruence.
Qed.

Lemma filter_le_all (i : nat) (rows : list VersionRow) :
  (∀ r, r ∈ rows -> vr_id r ≤ i) -> filter (fun r => vr_id r ≤ i) rows = rows.
Proof.
  induction rows as [|r rows IH]; intros H; [done|].
  rewrite filter_cons_True by (apply H, list_elem_of_here).
  f_equal. apply IH. intros r' Hr'. by apply H, list_elem_of_further.
Qed.

Lemma filter_le_none (i : nat) (rows : list VersionRow) :
  (∀ r, r ∈ rows -> i < vr_id r) -> filter (fun r => vr_id r ≤ i) rows = [].
Proof.
  induction rows as [|r rows IH]; intros H; [done|].
  rewrite filter_cons_False.
  - apply IH. intros r' Hr'. by apply H, list_elem_of_further.
  - specialize (H r (list_elem_of_here _ _)). lia.
Qed.

(** The rows of one motion before and after a row, in a table whose keys
    increase: the version number of the row counts those before it and the
    row itself. *)
Lemma version_number_split d l1 r l2 :
  versions d = l1 ++ r :: l2 ->
  StronglySorted lt (vr_id <$> versions d) ->
  version_number d (instance_of_row r) =
    PyInt (1 + length (filter (fun r' => vr_motion r' = vr_motion r) l1)).
Proof.
  intros E Hs. rewrite version_number_row, E. rewrite E, fmap_app, fmap_cons in Hs.
  apply StronglySorted_app in Hs as (H12 & _ & H2).
  apply StronglySorted_cons in H2 as [H2 _]. rewrite Forall_forall in H2.
  rewrite filter_app, filter_cons_True by done. rewrite filter_app, filter_cons_True by done.
  rewrite filter_le_all, (filter_le_none _ (filter _ l2)).
  - f_equal. rewrite length_app. simpl. lia.
  - intros r' [_ Hr']%list_elem_of_filter. apply H2. by apply list_elem_of_fmap_2.
  - intros r' [_ Hr']%list_elem_of_filter.
    assert (vr_id r' < vr_id r); [|lia]. apply H12; [by apply list_elem_of_fmap_2|].
    apply list_elem_of_here.
Qed.

Lemma version_numbers_of_sorted d mid :
  StronglySorted lt (vr_id <$> versions d) ->
  (fun r => version_number d (instance_of_row r)) <$> versions_of (Some mid) d
    = PyInt <$> seq 1 (length (versions_of (Some mid) d)).
Proof.
  unfold versions_of. intros Hs.
  assert (∀ l1 l2, versions d = l1 ++ l2 ->
            (fun r => version_number d (instance_of_row r)) <$> filter (fun r => vr_motion r = mid) l1
            = PyInt <$> seq 1 (length (filter (fun r => vr_motion r = mid) l1))) as H.
  { intros l1. induction l1 as [|r l1 IH] using rev_ind; intros l2 E; [done|].
    rewrite <- app_assoc in E. simpl in E.
    rewrite filter_app, fmap_app, (IH _ E).
    rewrite filter_cons. destruct (decide (vr_motion r = mid)) as [Hm|Hm].
    - rewrite filter_nil, length_app. simpl.
      replace (length (filter (fun r0 => vr_motion r0 = mid) l1) + 1)
        with (S (length (filter (fun r0 => vr_motion r0 = mid) l1))) by lia.
      rewrite seq_S, fmap_app. f_equal. simpl. f_equal.
      rewrite (version_number_split d l1 r l2 E Hs). by rewrite Hm.
    - rewrite filter_nil, !app_nil_r. done. }
  apply (H (versions d) []). by rewrite app_nil_r.
Qed.

(** C3. In every reachable store the version numbers of the versions of
    one motion, taken in the order of creation, are 1, 2, ..., N; and the
    version number of a stored version is one more than the number of
    versions of the same motion that come before it in the table. *)
Theorem version_numbers_1_to_N (s : store) :
  reachable s ->
  (∀ mid,
     (fun r => version_number (db s) (instance_of_row r)) <$> versions_of (Some mid) (db s)
       = PyInt <$> seq 1 (length (versions_of (Some mid) (db s))))
  ∧ (∀ k r, versions (db s) !! k = Some r ->
       version_number (db s) (instance_of_row r)
         = PyInt (1 + length (versions_of (Some (vr_motion r))
                               (with_versions (take k (versions (db s))) (db s))))).
Proof.
  intros Hr. apply reachable_Inv in Hr as [[Hs _ _] _ _]. split.
  - intros mid. by apply version_numbers_of_sorted.
  - intros k r Hk.
    apply (version_number_split _ (take k (versions (db s))) r (drop (S k) (versions (db s))));
      [|done].
    symmetry. by apply take_drop_middle.
Qed.

(** ** Supporters *)

Lemma supporter_count_zero p mid (l : list SupporterRow) :
  (p, mid) ∉ supporter_key <$> l ->
  filter (fun r => sr_person r = p ∧ sr_motion r = mid) l = [].
Proof.
  induction l as [|r l IH]; intros H; [done|].
  rewrite fmap_cons in H. apply not_elem_of_cons in H as [Hr Hl].
  rewrite filter_cons_False; [by apply IH|].
  intros [Hp Hm]. apply Hr. unfold supporter_key. congruence.
Qed.

Lemma supporter_count_one p mid (l : list SupporterRow) :
  NoDup (supporter_key <$> l) -> (p, mid) ∈ supporter_key <$> l ->
  length (filter (fun r => sr_person r = p ∧ sr_motion r = mid) l) = 1.
Proof.
  induction l as [|r l IH]; intros Hnd Hin; [by apply elem_of_nil in Hin|].
  rewrite fmap_cons in Hnd, Hin. apply NoDup_cons in Hnd as [Hr Hnd].
  destruct (decide (supporter_key r = (p, mid))) as [E|E].
  - rewrite filter_cons_True by (unfold supporter_key in E; by injection E).
    rewrite supporter_count_zero; [done|]. by rewrite <- E.
  - rewrite filter_cons_False by (intros [<- <-]; by apply E).
    apply IH; [done|]. apply elem_of_cons in Hin as [Hin|Hin]; [congruence|done].
Qed.

(** C7, as the code has it.  In a state that allows support, calling
    [support(p)] twice in a row on a stored motion of a reachable store
    succeeds both times, the second call changes
    nothing, and afterwards the supporter table holds exactly one row for
    [p] and the motion. *)
Theorem support_twice_one_record (s : store) (c : workflow.State) (mid : nat) (p : Person) :
  reachable s ->
  workflow.get_state (state_id (self s)) = Some c ->
  workflow.support c = true ->
  pk (self s) = Some mid ->
  ∃ s1, support p s = (Ok tt, s1)
    ∧ support p s1 = (Ok tt, s1)
    ∧ (support p ;; support p) s = (Ok tt, s1)
    ∧ length (filter (fun r => sr_person r = p ∧ sr_motion r = mid)
                (supporters (db s1))) = 1.
Proof.
  intros Hr Hc Hs Hpk. apply reachable_Inv in Hr as [[_ _ Hnd] _ _].
  rewrite bind_eq, (support_spec s c mid p Hc Hs Hpk).
  destruct (decide ((p, mid) ∈ supporter_key <$> supporters (db s))) as [Hin|Hin].
  - exists s. rewrite (support_spec s c mid p Hc Hs Hpk), decide_True by done.
    split; [done|]. split; [done|]. split; [done|]. by apply supporter_count_one.
  - eexists. split; [reflexivity|].
    assert (Hin' : (p, mid) ∈ supporter_key <$>
              supporters (db s) ++ [{| sr_id := next_id (sr_id <$> supporters (db s));
                                       sr_person := p; sr_motion := mid |}]).
    { rewrite fmap_app. apply elem_of_app. right. apply list_elem_of_here. }
    rewrite support_spec with (st := c) (mid := mid) by done.
    simpl. rewrite decide_True by done. split; [done|]. split; [done|].
    rewrite filter_app, supporter_count_zero by done. by rewrite filter_cons_True.
Qed.

(** ** Choosing a version *)

(** C8, as the code has it.  [set_version] with an integer [n] of the
    64-bit range counts the versions of the motion from 0: for [0 <= n < N]
    it makes the version at position [n] of the table, the [(n+1)]-th in
    creation order, the active one; for [N <= n < 2^63] it raises
    [IndexError] and for [-2^63 <= n < 0] the query refuses the index
    ([AssertionError]), the store staying as it was.  A [MotionVersion]
    becomes the active version as it is, [None] clears the choice, and a
    value of any other type raises [ValueError]. *)
Theorem set_version_from_zero (s : store) :
  (∀ n r, (0 ≤ n)%Z -> versions_of (pk (self s)) (db s) !! Z.to_nat n = Some r ->
     set_version (VInt n) s =
       (Ok tt, {| db := db s; heap := heap s ++ [instance_of_row r];
                  self := with_version (Some (length (heap s))) (self s) |}))
  ∧ (∀ n, (Z.of_nat (length (versions_of (pk (self s)) (db s))) ≤ n)%Z ->
       (n < 2 ^ 63)%Z ->
       set_version (VInt n) s = (Raise IndexError, s))
  ∧ (∀ n, (- 2 ^ 63 ≤ n)%Z -> (n < 0)%Z ->
       set_version (VInt n) s = (Raise AssertionError, s))
  ∧ (∀ a, set_version (VVersion a) s = (Ok tt, with_self (with_version (Some a) (self s)) s))
  ∧ set_version VNone s = (Ok tt, with_self (with_version None (self s)) s)
  ∧ set_version VOther s = (Raise ValueError, s).
Proof.
  split; [|split; [|split; [|split; [|split]]]]; try reflexivity.
  - intros n r Hn Hr. unfold set_version. msimpl. rewrite decide_False by lia. by rewrite Hr.
  - intros n Hn Hmax. unfold set_version. msimpl. rewrite decide_False by lia.
    rewrite lookup_ge_None_2 by lia. by rewrite decide_True.
  - intros n _ Hn. unfold set_version. msimpl. by rewrite decide_True.
Qed.

(** ** Commit *)

Lemma prepared_staged s s1 x : prepared s s1 -> staged x (self s1) = staged x (self s).
Proof. intros [_ _ _ _ _ Hs _ _]. rewrite Hs. by destruct x. Qed.

Lemma prepared_pk_Some s s1 i : prepared s s1 -> pk (self s) = Some i -> pk (self s1) = Some i.
Proof.
  intros Hp Hi. destruct (prep_pk _ _ Hp) as (j & Hj & _ & _ & Hij).
  by rewrite Hj, (Hij i Hi).
Qed.

Lemma reads_pk version s s' : reads version s s' -> pk (self s') = pk (self s).
Proof. intros [_ Hs _ _ _]. by rewrite Hs. Qed.

Lemma reads_final version s s' x : reads version s s' -> final s' x = final s x.
Proof.
  intros Hr. apply final_same; [apply Hr|by eapply reads_pk|by eapply reads_staged].
Qed.

Lemma ledger_of_versions s mid rows :
  pk (self s) = Some mid -> versions_of (Some mid) (db s) = rows ->
  ledger s = greatest_id rows.
Proof. intros Hp <-. unfold ledger. by rewrite Hp. Qed.

Lemma versions_of_same mid d d' :
  versions d' = versions d -> versions_of mid d' = versions_of mid d.
Proof. intros H. unfold versions_of. by rewrite H. Qed.

Lemma versions_of_snoc mid d d' r :
  versions d' = versions d ++ [r] -> vr_motion r = mid ->
  versions_of (Some mid) d' = versions_of (Some mid) d ++ [r].
Proof.
  intros H Hm. unfold versions_of. by rewrite H, filter_app, filter_cons_True.
Qed.

(** C2. A stored motion has one version with title "A", text "B" and
    reason "C"; only a title "A2" is staged and the configuration asks for a
    new version at every change.  Then [save] succeeds, appends one row to
    the table, the motion has exactly two versions, the second with title
    "A2" (the staged value), text "B" and reason "C" (the values of the last
    version), and no attribute is staged any more. *)
Theorem save_new_version_carries_fields
    (config : string -> string) (s : store) (mid : nat) (r1 : VersionRow) :
  reachable s ->
  state_ok s ->
  pk (self s) = Some mid ->
  versions_of (Some mid) (db s) = [r1] ->
  vr_title r1 = Some "A" -> vr_text r1 = Some "B" -> vr_reason r1 = Some "C" ->
  _text (self s) = None -> _reason (self s) = None ->
  config "motion_create_new_version" = "ALLWASY_CREATE_NEW_VERSION" ->
  ∃ s' r2,
    (set_title (Some "A2") ;; save config) s = (Ok tt, s')
    ∧ versions (db s') = versions (db s) ++ [r2]
    ∧ versions_of (Some mid) (db s') = [r1; r2]
    ∧ vr_title r2 = Some "A2" ∧ vr_text r2 = Some "B" ∧ vr_reason r2 = Some "C"
    ∧ (∀ x, staged x (self s') = None).
Proof.
  intros Hreach Hok Hpk Hvs Ht Hx Hre Hst Hsr Hcfg.
  apply reachable_Inv in Hreach.
  set (st := with_self (set_staged Title (Some (Some "A2")) (self s)) s).
  assert (HI : Inv st) by (by apply Inv_with_self).
  destruct (save_head config st (inv_new_version _ HI) (inv_version _ HI) Hok)
    as (s1 & s2 & Hp & Hr & _ & E).
  assert (Hpk1 : pk (self s1) = Some mid) by (by apply (prepared_pk_Some st)).
  assert (Hl1 : ledger s1 = Some r1).
  { rewrite (ledger_of_versions s1 mid [r1] Hpk1); [done|].
    rewrite <- Hvs. apply versions_of_same, Hp. }
  assert (Hfb : ∀ x, fb s1 x = getattr_version x (instance_of_row r1)).
  { intros x. unfold fb. by rewrite Hl1. }
  assert (Hnd : bool_decide (Exists (fun x => cur s1 x ≠ fb s1 x) all_attrs) = true).
  { apply bool_decide_eq_true_2, Exists_cons_hd. unfold cur.
    rewrite (prepared_staged _ _ Title Hp), Hfb. simpl. by rewrite Ht. }
  rewrite Hnd in E.
  assert (Hf : ∀ x, final s2 x = default (getattr_version x (instance_of_row r1)) (staged x (self st))).
  { intros x. rewrite (reads_final _ _ _ x Hr). unfold final.
    by rewrite (prepared_staged _ _ x Hp), Hfb. }
  destruct (save_version_new_ok config true s2 mid "A2" "B" (reads_nv _ _ _ Hr)) as (s4 & E4 & Hd4 & Hs4 & Hk).
  { right. split; [done|]. unfold need_new_version. by apply bool_decide_eq_true_2. }
  { by rewrite (reads_pk _ _ _ Hr). }
  { by rewrite Hf. }
  { rewrite Hf. simpl. by rewrite Hst. }
  assert (Hv4 : versions (db s4) = versions (db s) ++ [
            row_of (next_id (vr_id <$> versions (db s))) mid
              (written s2 (fresh_version (Some mid)))]).
  { rewrite Hd4. simpl. rewrite (reads_db _ _ _ Hr), (prep_versions _ _ Hp). reflexivity. }
  eexists s4, _. split; [|split; [exact Hv4|split; [|split; [|split; [|split]]]]].
  - change ((set_title (Some "A2") ;; save config) s) with (save config st).
    by rewrite E.
  - rewrite (versions_of_snoc mid (db s) _ _ Hv4) by done. by rewrite Hvs.
  - simpl. by rewrite Hf.
  - simpl. rewrite Hf. simpl. by rewrite Hst.
  - simpl. rewrite Hf. simpl. by rewrite Hsr.
  - done.
Qed.

Lemma versions_of_fresh d :
  db_ok d -> versions_of (Some (next_id (mr_id <$> motions d))) d = [].
Proof.
  intros [_ Hfk _]. unfold versions_of.
  destruct (filter _ _) as [|r l] eqn:E; [done|]. exfalso.
  assert (Hin : r ∈ filter (fun r => vr_motion r = next_id (mr_id <$> motions d)) (versions d)).
  { rewrite E. apply list_elem_of_here. }
  apply list_elem_of_filter in Hin as [Hm Hin]. apply Hfk, max_list_elem_of_le in Hin.
  unfold next_id in Hm. lia.
Qed.

Lemma prepared_no_version s s1 :
  db_ok (db s) -> prepared s s1 -> versions_of (pk (self s)) (db s) = [] -> ledger s1 = None.
Proof.
  intros Hdb Hp He. destruct (prep_pk _ _ Hp) as (i & Hi & _ & Hnone & Hsome).
  unfold ledger. rewrite Hi, (versions_of_same _ _ _ (prep_versions _ _ Hp)).
  destruct (pk (self s)) as [j|] eqn:Ej.
  - by rewrite (Hsome j eq_refl), He.
  - rewrite (Hnone eq_refl). by rewrite versions_of_fresh.
Qed.


(** A commit of a motion that has a version, nothing staged, no memoized
    new version and no chosen version writes no version. *)
Lemma save_without_changes config s r :
  Inv s -> state_ok s ->
  (∀ x, staged x (self s) = None) ->
  _new_version (self s) = None -> _version (self s) = None ->
  ledger s = Some r ->
  ∃ s', save config s = (Ok tt, s') ∧ versions (db s') = versions (db s).
Proof.
  intros HI Hok Hst Hn Hv Hl.
  destruct (save_head config s (inv_new_version _ HI) (inv_version _ HI) Hok)
    as (s1 & s2 & Hp & Hr & _ & E).
  destruct (ledger_elem _ _ Hl) as [_ Hpk].
  assert (Hl1 : ledger s1 = Some r).
  { unfold ledger. rewrite (prepared_pk_Some _ _ _ Hp Hpk).
    rewrite (versions_of_same _ _ _ (prep_versions _ _ Hp)), <- Hpk. exact Hl. }
  assert (Hnd : bool_decide (Exists (fun x => cur s1 x ≠ fb s1 x) all_attrs) = false).
  { apply bool_decide_eq_false_2. intros Hex. apply Exists_exists in Hex as (x & _ & Hx).
    apply Hx. unfold cur. rewrite (prepared_staged _ _ x Hp), Hst.
    by rewrite (prep_self _ _ Hp); simpl; rewrite Hv. }
  rewrite Hnd in E. rewrite save_version_none in E.
  - exists s2. split; [done|]. by rewrite (reads_db _ _ _ Hr), (prep_versions _ _ Hp).
  - rewrite (reads_keep _ _ _ Hr) by (rewrite Hl1; eauto).
    by rewrite (prep_self _ _ Hp).
Qed.

Lemma reachable_run_calls config cs s :
  reachable s -> (∀ c s', c ∈ cs -> call_ok c s') -> reachable (run_calls config cs s).
Proof.
  revert s. induction cs as [|c cs IH]; intros s Hs Hok; [done|].
  simpl. apply IH.
  - apply reach_call; [done|]. apply Hok, list_elem_of_here.
  - intros c' s' Hc'. by apply Hok, list_elem_of_further.
Qed.

(** ** The outcomes of [save] *)

Lemma save_tail_cases config s1 :
  nv_ok None s1 -> valid (_version (self s1)) s1 -> is_Some (pk (self s1)) ->
  ∃ s2 s' res,
    reads None s1 s2
    ∧ (new_data_of all_attrs ≫= fun new_data => save_version config new_data) s1 = (res, s')
    ∧ kept s2 s'
    ∧ (res = Ok tt ∨ res = Raise IntegrityError)
    ∧ version_write config s2 s'.
Proof.
  intros Hnv Hver [i Hi].
  destruct (new_data_spec None all_attrs s1 Hnv I Hver) as (s2 & E2 & Hr & Hn).
  exists s2. rewrite bind_eq, E2. set (nd := bool_decide _). clearbody nd.
  pose proof (reads_nv _ _ _ Hr) as Hnv2.
  assert (Hi2 : pk (self s2) = Some i) by (by rewrite (reads_pk _ _ _ Hr)).
  assert (Hcase : (is_Some (_new_version (self s2)) ∨ (nd = true ∧ need_new_version config = true))
                  ∨ (_new_version (self s2) = None ∧ nd = true ∧ need_new_version config = false)
                  ∨ (_new_version (self s2) = None ∧ nd = false)).
  { destruct (_new_version (self s2)); [left; left; eauto|].
    destruct nd; [|by right; right]. destruct (need_new_version config); [left|right; left]; eauto. }
  destruct Hcase as [Hc|[(Hnone & -> & Hneed)|(Hnone & ->)]].
  - destruct (final s2 Title) as [t|] eqn:Et; [destruct (final s2 Text) as [x|] eqn:Ex|].
    + destruct (save_version_new_ok config nd s2 i t x Hnv2 Hc Hi2 Et Ex) as (s4 & -> & Hd4 & _ & Hk).
      exists s4, (Ok tt). split; [done|]. split; [done|]. split; [done|]. split; [by left|].
      by eapply write_new.
    + destruct (save_version_new_null config nd s2 Hnv2 Hc) as (s3 & -> & Hd3 & Hk); [auto|].
      exists s3, (Raise IntegrityError). split; [done|]. split; [done|]. split; [done|].
      split; [by right|]. by apply write_none.
    + destruct (save_version_new_null config nd s2 Hnv2 Hc) as (s3 & -> & Hd3 & Hk); [auto|].
      exists s3, (Raise IntegrityError). split; [done|]. split; [done|]. split; [done|].
      split; [by right|]. by apply write_none.
  - assert (∃ r, ledger s2 = Some r) as [r Hl].
    { rewrite (reads_ledger _ _ _ Hr). destruct (ledger s1) as [r|]; [eauto|].
      destruct Hn as [? Hn]; [done|done|]. congruence. }
    destruct (final s2 Title) as [t|] eqn:Et; [destruct (final s2 Text) as [x|] eqn:Ex|].
    + destruct (save_version_last_ok config s2 r t x Hnv2 Hnone Hneed Hl Et Ex) as (s4 & -> & Hd4 & _ & Hk).
      exists s4, (Ok tt). split; [done|]. split; [done|]. split; [done|]. split; [by left|].
      by eapply write_last.
    + destruct (save_version_last_null config s2 r Hnv2 Hnone Hneed Hl) as (s3 & -> & Hd3 & Hk); [auto|].
      exists s3, (Raise IntegrityError). split; [done|]. split; [done|]. split; [done|].
      split; [by right|]. by apply write_none.
    + destruct (save_version_last_null config s2 r Hnv2 Hnone Hneed Hl) as (s3 & -> & Hd3 & Hk); [auto|].
      exists s3, (Raise IntegrityError). split; [done|]. split; [done|]. split; [done|].
      split; [by right|]. by apply write_none.
  - rewrite save_version_none by done.
    exists s2, (Ok tt). split; [done|]. split; [done|]. split; [by split|]. split; [by left|].
    by apply write_none.
Qed.

Lemma save_after_prelude config s s0 s1 :
  (if decide (state_id (self s) = "") then reset_state else mret tt) s = (Ok tt, s0) ->
  Model_save s0 = (Ok tt, s1) ->
  save config s = (new_data_of all_attrs ≫= fun new_data => save_version config new_data) s1.
Proof.
  intros E0 E1. unfold save. change [Title; Text; Reason] with all_attrs.
  rewrite bind_eq. unfold gets at 1. cbn beta iota.
  by rewrite bind_eq, E0, bind_eq, E1.
Qed.

Lemma save_cases config s :
  Inv s -> state_ok s ->
  ∃ s0 s1 s2 s' res,
    (if decide (state_id (self s) = "") then reset_state else mret tt) s = (Ok tt, s0)
    ∧ Model_save s0 = (Ok tt, s1)
    ∧ prepared s s1 ∧ reads None s1 s2
    ∧ save config s = (res, s')
    ∧ kept s2 s'
    ∧ (res = Ok tt ∨ res = Raise IntegrityError)
    ∧ version_write config s2 s'.
Proof.
  intros [Hdb Hnv Hver] Hok.
  destruct (prelude_spec s Hok) as (s0 & s1 & E0 & E1 & Hp).
  destruct (save_tail_cases config s1 (prepared_nv _ _ Hp Hnv) (prepared_valid _ _ Hp Hver))
    as (s2 & s' & res & Hr & E & Hk & Hres & Hw).
  { destruct (prep_pk _ _ Hp) as (i & Hi & _). eauto. }
  exists s0, s1, s2, s', res. rewrite (save_after_prelude config s s0 s1 E0 E1).
  done.
Qed.

Lemma state_ok_or s :
  state_ok s ∨ (state_id (self s) = "" ∧ workflow.get_state "default" = None).
Proof.
  unfold state_ok. destruct (decide (state_id (self s) = "")); [|by left; left].
  destruct (workflow.get_state "default"); [left; right; eauto|by right].
Qed.

Lemma version_write_frame config s2 s' :
  version_write config s2 s' ->
  motions (db s') = motions (db s2) ∧ supporters (db s') = supporters (db s2)
  ∧ polls (db s') = polls (db s2) ∧ options (db s') = options (db s2).
Proof. destruct 1 as [H|i t x _ _ _ H|r t x _ _ _ _ _ H]; by rewrite H. Qed.

Lemma version_write_versions config s2 s' :
  version_write config s2 s' ->
  (vr_id <$> versions (db s2)) `prefix_of` (vr_id <$> versions (db s'))
  ∧ length (versions (db s')) ≤ S (length (versions (db s2)))
  ∧ (need_new_version config = true -> versions (db s2) `prefix_of` versions (db s')).
Proof.
  destruct 1 as [H|i t x _ _ _ H|r t x Hl Hneed _ _ _ H]; rewrite H; simpl.
  - split; [done|]. split; [lia|done].
  - rewrite !fmap_app. split; [by eexists|].
    split; [rewrite length_app; simpl; lia|]. intros _. by eexists.
  - rewrite update_version_row_id, length_fmap. split; [done|]. split; [lia|congruence].
Qed.

(** ** What the calls leave alone *)

Lemma new_version_db s : db (new_version s).2 = db s.
Proof. unfold new_version. msimpl. by destruct (_new_version (self s)). Qed.

Lemma last_version_db s : db (last_version s).2 = db s.
Proof.
  unfold last_version. msimpl. destruct (greatest_id _); [done|]. apply new_version_db.
Qed.

Lemma get_version_db s : db (get_version s).2 = db s.
Proof.
  unfold get_version. msimpl. destruct (_version (self s)); [done|]. apply last_version_db.
Qed.

Lemma getattr_self_db x s : db (getattr_self x s).2 = db s.
Proof.
  unfold getattr_self. rewrite bind_eq. unfold gets at 1. cbn beta iota.
  destruct (staged x (self s)); [done|]. rewrite bind_eq.
  pose proof (get_version_db s) as H.
  destruct (get_version s) as [[a|e] s']; simpl in *; [|done].
  rewrite bind_eq. unfold deref. by destruct (heap s' !! a).
Qed.

Lemma drop_result_db {A} (m : M A) s : db ((m ;; mret tt) s).2 = db (m s).2.
Proof. rewrite bind_eq. by destruct (m s) as [[]]. Qed.

Lemma support_tables p s :
  versions (db (support p s).2) = versions (db s)
  ∧ polls (db (support p s).2) = polls (db s)
  ∧ motions (db (support p s).2) = motions (db s).
Proof.
  unfold support, state_attr, get_state, is_supporter, MotionSupporter_save. msimpl.
  destruct (workflow.get_state (state_id (self s))) as [st|] eqn:Hst; msimpl; [|done].
  destruct (workflow.support st); msimpl; [|by rewrite Hst].
  destruct (negb _); simpl; [|done]. by destruct (pk (self s)).
Qed.

Lemma unsupport_tables p s :
  versions (db (unsupport p s).2) = versions (db s)
  ∧ polls (db (unsupport p s).2) = polls (db s)
  ∧ motions (db (unsupport p s).2) = motions (db s).
Proof.
  unfold unsupport, state_attr, get_state. msimpl.
  destruct (workflow.get_state (state_id (self s))) as [st|] eqn:Hst; msimpl; [|done].
  destruct (workflow.support st); msimpl; [|by rewrite Hst].
  by destruct (pk (self s)).
Qed.

Lemma set_version_db v s : db (set_version v s).2 = db s.
Proof.
  destruct v as [|n|a|]; simpl; try done. msimpl.
  destruct (decide (n < 0)%Z); [done|].
  destruct (versions_of _ _ !! _); [done|]. by destruct (decide (n < 2 ^ 63)%Z).
Qed.

Lemma set_state_db x s : db (set_state x s).2 = db s.
Proof.
  unfold set_state, state_attr, get_state. msimpl. destruct x as [n|t]; msimpl.
  - destruct (workflow.get_state (state_id (self s))); msimpl; [|done]. by destruct (decide _).
  - destruct (workflow.get_state t); msimpl; [|done].
    destruct (workflow.get_state (state_id (self s))); msimpl; [|done]. by destruct (decide _).
Qed.

Lemma reset_state_db s : db (reset_state s).2 = db s.
Proof. unfold reset_state. by destruct (workflow.get_state "default"). Qed.

Lemma create_poll_versions s :
  versions (db (create_poll s).2) = versions (db s)
  ∧ motions (db (create_poll s).2) = motions (db s)
  ∧ supporters (db (create_poll s).2) = supporters (db s).
Proof.
  unfold create_poll, state_attr, get_state, MotionPoll_create, set_options. msimpl.
  destruct (workflow.get_state (state_id (self s))) as [st|] eqn:Hst; msimpl; [|done].
  destruct (workflow.poll st); msimpl; [|by rewrite Hst].
  destruct (pk (self s)); simpl; [|done]. by destruct (decide _).
Qed.

(** A call other than [save] writes no version and no motion; other than
    [save] and [create_poll], no poll. *)
Lemma call_other_tables config c s :
  c ≠ CSave ->
  versions (db (call config c s).2) = versions (db s)
  ∧ motions (db (call config c s).2) = motions (db s)
  ∧ (c ≠ CCreatePoll -> polls (db (call config c s).2) = polls (db s)).
Proof.
  intros Hc. destruct c; try done; simpl.
  - unfold get_title. by rewrite drop_result_db, getattr_self_db.
  - unfold get_text. by rewrite drop_result_db, getattr_self_db.
  - unfold get_reason. by rewrite drop_result_db, getattr_self_db.
  - by rewrite drop_result_db, new_version_db.
  - by rewrite drop_result_db, last_version_db.
  - by rewrite drop_result_db, get_version_db.
  - by rewrite set_version_db.
  - destruct (support_tables p s) as (? & ? & ?). done.
  - destruct (unsupport_tables p s) as (? & ? & ?). done.
  - rewrite drop_result_db. destruct (create_poll_versions s) as (? & ? & ?). done.
  - by rewrite set_state_db.
  - by rewrite reset_state_db.
Qed.

Lemma save_tables config s :
  Inv s ->
  supporters (db (save config s).2) = supporters (db s)
  ∧ polls (db (save config s).2) = polls (db s)
  ∧ options (db (save config s).2) = options (db s)
  ∧ (∀ j, j ∈ mr_id <$> motions (db s) -> j ∈ mr_id <$> motions (db (save config s).2))
  ∧ (vr_id <$> versions (db s)) `prefix_of` (vr_id <$> versions (db (save config s).2))
  ∧ length (versions (db (save config s).2)) ≤ S (length (versions (db s)))
  ∧ (need_new_version config = true ->
       versions (db s) `prefix_of` versions (db (save config s).2)).
Proof.
  intros HI. destruct (state_ok_or s) as [Hok|[E Hd]].
  2: { rewrite save_no_state by done. simpl. repeat split; try done. lia. }
  destruct (save_cases config s HI Hok) as (s0 & s1 & s2 & s' & res & _ & _ & Hp & Hr & -> & _ & _ & Hw).
  simpl. destruct (version_write_frame _ _ _ Hw) as (Hm & Hs & Hpl & Ho).
  destruct (version_write_versions _ _ _ Hw) as (Hids & Hlen & Hrows).
  rewrite (reads_db _ _ _ Hr) in Hm, Hs, Hpl, Ho, Hids, Hlen, Hrows.
  rewrite (prep_versions _ _ Hp) in Hids, Hlen, Hrows.
  rewrite Hs, Hpl, Ho, Hm.
  split; [apply Hp|]. split; [apply Hp|]. split; [apply Hp|]. split; [apply Hp|]. done.
Qed.

(** X5. [save] writes motions and versions only: the supporters, the polls
    and the options of a reachable store are what they were, and no motion
    disappears. *)
Theorem save_leaves_other_tables config s :
  reachable s ->
  supporters (db (save config s).2) = supporters (db s)
  ∧ polls (db (save config s).2) = polls (db s)
  ∧ options (db (save config s).2) = options (db s)
  ∧ (∀ j, j ∈ mr_id <$> motions (db s) -> j ∈ mr_id <$> motions (db (save config s).2)).
Proof.
  intros Hr. apply reachable_Inv in Hr.
  destruct (save_tables config s Hr) as (? & ? & ? & ? & _). done.
Qed.

(** X6. The ledger only grows.  Whatever method is called on a reachable
    store, the keys of the versions before the call are the first keys
    after it, in the same order, and at most one version is added; when the
    configuration asks for a new version at every change, the rows
    themselves stay as they were. *)
Theorem versions_append_only config c s :
  reachable s ->
  (vr_id <$> versions (db s)) `prefix_of` (vr_id <$> versions (db (call config c s).2))
  ∧ length (versions (db (call config c s).2)) ≤ S (length (versions (db s)))
  ∧ (config "motion_create_new_version" = "ALLWASY_CREATE_NEW_VERSION" ->
       versions (db s) `prefix_of` versions (db (call config c s).2)).
Proof.
  intros Hr. apply reachable_Inv in Hr.
  assert (c = CSave ∨ c ≠ CSave) as [->|Hc] by (destruct c; (by left) || (by right)).
  - simpl. destruct (save_tables config s Hr) as (_ & _ & _ & _ & H1 & H2 & H3).
    split; [done|]. split; [done|]. intros Hcfg. apply H3.
    unfold need_new_version. by apply bool_decide_eq_true_2.
  - destruct (call_other_tables config c s Hc) as (-> & _). split; [done|]. split; [lia|done].
Qed.

(** ** Integrity of the tables *)

Lemma StronglySorted_lt_NoDup (l : list nat) : StronglySorted lt l -> NoDup l.
Proof.
  induction 1 as [|a l _ IH Ha]; [constructor|]. apply NoDup_cons. split; [|done].
  intros Hin. rewrite Forall_forall in Ha. specialize (Ha a Hin). lia.
Qed.

(** X7. In every reachable store the primary keys of the versions are
    pairwise distinct and increase along the table, every version belongs
    to a motion that has a row, and no (person, motion) pair occurs twice
    among the supporters. *)
Theorem reachable_integrity s :
  reachable s ->
  NoDup (vr_id <$> versions (db s))
  ∧ StronglySorted lt (vr_id <$> versions (db s))
  ∧ (∀ r, r ∈ versions (db s) -> vr_motion r ∈ mr_id <$> motions (db s))
  ∧ NoDup (supporter_key <$> supporters (db s)).
Proof.
  intros Hr. apply reachable_Inv in Hr as [[H1 H2 H3] _ _].
  split; [by apply StronglySorted_lt_NoDup|done].
Qed.

Lemma max_list_snoc l x : max_list (l ++ [x]) = max_list l `max` x.
Proof. induction l as [|y l IH]; simpl; lia. Qed.

Lemma max_list_seq n : max_list (seq 1 n) = n.
Proof.
  induction n as [|n IH]; [done|]. rewrite seq_S, max_list_snoc, IH. simpl. lia.
Qed.

Lemma polls_numbered_same d d' : polls d' = polls d -> polls_numbered d -> polls_numbered d'.
Proof. intros H Hd mid. unfold polls_of. rewrite H. apply Hd. Qed.

Lemma create_poll_eq s c mid :
  workflow.get_state (state_id (self s)) = Some c -> workflow.poll c = true ->
  pk (self s) = Some mid ->
  create_poll s =
    (Ok {| pr_id := next_id (pr_id <$> polls (db s)); pr_motion := mid;
           pr_poll_number := max_list (pr_poll_number <$> polls_of (Some mid) (db s)) + 1 |},
     with_db (with_options (options (db s) ++ [
                {| or_id := next_id (or_id <$> options (db s));
                   or_poll := next_id (pr_id <$> polls (db s)) |}])
              (with_polls (polls (db s) ++ [
                {| pr_id := next_id (pr_id <$> polls (db s)); pr_motion := mid;
                   pr_poll_number :=
                     max_list (pr_poll_number <$> polls_of (Some mid) (db s)) + 1 |}])
                 (db s))) s).
Proof.
  intros Hc Hp Hpk. unfold create_poll, state_attr, get_state, MotionPoll_create, set_options.
  msimpl. rewrite Hc. msimpl. rewrite Hp, Hpk. simpl.
  rewrite or_0_aggregate_max, decide_False by (apply max_list_not_elem_of_gt; lia).
  reflexivity.
Qed.

Lemma polls_of_snoc mid d d' p :
  polls d' = polls d ++ [p] ->
  polls_of (Some mid) d'
    = polls_of (Some mid) d ++ (if decide (pr_motion p = mid) then [p] else []).
Proof.
  intros H. unfold polls_of. rewrite H, filter_app, filter_cons.
  by destruct (decide (pr_motion p = mid)).
Qed.

Lemma create_poll_numbered s :
  polls_numbered (db s) -> polls_numbered (db (create_poll s).2).
Proof.
  intros Hd.
  destruct (workflow.get_state (state_id (self s))) as [c|] eqn:Hc.
  2: { unfold create_poll, state_attr, get_state. msimpl. by rewrite Hc. }
  destruct (workflow.poll c) eqn:Hp.
  2: { unfold create_poll, state_attr, get_state. msimpl. rewrite Hc. msimpl.
       rewrite Hp. msimpl. by rewrite Hc. }
  destruct (pk (self s)) as [mid|] eqn:Hpk.
  2: { unfold create_poll, state_attr, get_state, MotionPoll_create. msimpl.
       rewrite Hc. msimpl. by rewrite Hp, Hpk. }
  assert (Hn : max_list (pr_poll_number <$> polls_of (Some mid) (db s))
               = length (polls_of (Some mid) (db s))).
  { by rewrite (Hd mid), max_list_seq. }
  rewrite (create_poll_eq s c mid Hc Hp Hpk), Hn. cbn [snd]. intros mid'.
  erewrite (polls_of_snoc mid' (db s)); [|reflexivity]. cbn [pr_motion].
  destruct (decide (mid = mid')) as [<-|Hne].
  - rewrite fmap_app, length_app, (Hd mid). cbn [length].
    rewrite !Nat.add_1_r, seq_S. reflexivity.
  - rewrite app_nil_r. apply Hd.
Qed.

Lemma reachable_polls_numbered s : reachable s -> polls_numbered (db s).
Proof.
  induction 1 as [|config c s Hr IH Hok|s _ IH|r s _ IH Hr|v s _ IH]; try done.
  assert (c = CSave ∨ c = CCreatePoll ∨ (c ≠ CSave ∧ c ≠ CCreatePoll)) as [->|[->|[H1 H2]]].
  { destruct c; auto; right; right; done. }
  - apply reachable_Inv in Hr. destruct (save_tables config s Hr) as (_ & Hp & _).
    by apply (polls_numbered_same (db s)).
  - simpl. rewrite drop_result_db. by apply create_poll_numbered.
  - destruct (call_other_tables config c s H1) as (_ & _ & Hp).
    apply (polls_numbered_same (db s)); [by apply Hp|done].
Qed.

(** X8. In every reachable store the poll numbers of a motion are
    1, 2, ..., N in the order in which the polls were created; so they are
    pairwise distinct and each is at least 1. *)
Theorem poll_numbers_1_to_N s mid :
  reachable s ->
  pr_poll_number <$> polls_of (Some mid) (db s)
    = seq 1 (length (polls_of (Some mid) (db s)))
  ∧ NoDup (pr_poll_number <$> polls_of (Some mid) (db s))
  ∧ ∀ p, p ∈ polls_of (Some mid) (db s) -> 1 ≤ pr_poll_number p.
Proof.
  intros Hr. pose proof (reachable_polls_numbered s Hr mid) as H.
  split; [done|]. split.
  - rewrite H. apply NoDup_seq.
  - intros p Hp. apply (list_elem_of_fmap_2 pr_poll_number) in Hp.
    rewrite H in Hp. apply elem_of_seq in Hp. lia.
Qed.

(** ** The first lines of [save] in detail *)

Lemma prelude_detail s s0 s1 :
  (if decide (state_id (self s) = "") then reset_state else mret tt) s = (Ok tt, s0) ->
  Model_save s0 = (Ok tt, s1) ->
  let sid := if decide (state_id (self s) = "")
             then from_option workflow.id "" (workflow.get_state "default")
             else state_id (self s) in
  ∃ i, self s1 = with_pk (Some i) (with_state_id sid (self s))
    ∧ {| mr_id := i; mr_state_id := sid |} ∈ motions (db s1)
    ∧ ∀ r, r ∈ motions (db s1) -> mr_id r = i -> mr_state_id r = sid.
Proof.
  intros E0 E1 sid.
  assert (s0 = with_self (with_state_id sid (self s)) s) as ->.
  { subst sid. destruct (decide (state_id (self s) = "")) as [E|E].
    - unfold reset_state in E0. destruct (workflow.get_state "default"); [|done].
      by injection E0 as <-.
    - injection E0 as <-. by destruct s as [d h []]. }
  clear E0. revert E1. unfold Model_save. msimpl.
  destruct (pk (self s)) as [i|] eqn:Ei.
  - destruct (decide (i ∈ mr_id <$> motions (db s))) as [Hi|Hi]; intros [= <-]; exists i; simpl.
    + split; [by rewrite <- Ei; destruct (self s)|]. split.
      * apply list_elem_of_fmap in Hi as (r & -> & Hr). apply list_elem_of_fmap.
        exists r. split; [|done]. by rewrite decide_True.
      * intros r (r0 & -> & Hr0)%list_elem_of_fmap Hid.
        destruct (decide (mr_id r0 = i)); [done|]. simpl in Hid. done.
    + split; [by rewrite <- Ei; destruct (self s)|]. split.
      * apply elem_of_app. right. apply list_elem_of_here.
      * intros r [Hr| ->%list_elem_of_singleton]%elem_of_app Hid; [|done].
        exfalso. apply Hi. rewrite <- Hid. by apply list_elem_of_fmap_2.
  - intros [= <-]. eexists. simpl. split; [by destruct (self s)|]. split.
    + apply elem_of_app. right. apply list_elem_of_here.
    + intros r [Hr| ->%list_elem_of_singleton]%elem_of_app Hid; [|done].
      exfalso. apply (list_elem_of_fmap_2 mr_id) in Hr. rewrite Hid in Hr.
      apply max_list_elem_of_le in Hr. unfold next_id in Hr. lia.
Qed.

Lemma new_version_spec s :
  nv_ok None s ->
  ∃ a w s1, new_version s = (Ok a, s1) ∧ heap s1 !! a = Some w ∧ blank w
    ∧ db s1 = db s ∧ self s1 = with_new_version (Some a) (self s)
    ∧ length (heap s) ≤ length (heap s1).
Proof.
  intros Hnv. unfold new_version. msimpl. unfold nv_ok in Hnv.
  destruct (_new_version (self s)) as [b|] eqn:Eb.
  - destruct Hnv as (_ & w & Hw & Hb). exists b, w, s.
    split; [done|]. split; [done|]. split; [done|]. split; [done|].
    split; [|done]. rewrite <- Eb. by destruct (self s).
  - eexists _, _, _. split; [reflexivity|]. simpl.
    split; [apply list_lookup_middle; reflexivity|]. split; [done|].
    split; [done|]. split; [done|]. rewrite length_app. lia.
Qed.

Lemma write_attr_staged version x y v s :
  staged x (self s) = Some y -> heap s !! version = Some v ->
  ∃ s', write_attr version x s = (Ok tt, s')
    ∧ db s' = db s ∧ self s' = set_staged x None (self s)
    ∧ heap s' !! version = Some (setattr_version x y v)
    ∧ length (heap s') = length (heap s).
Proof.
  intros Hst Hv. unfold write_attr. rewrite bind_eq. unfold gets at 1. cbn beta iota.
  rewrite Hst, bind_eq, (update_eq _ _ _ _ Hv). eexists. split; [reflexivity|]. simpl.
  split; [done|]. split; [done|]. split; [|by rewrite length_insert].
  apply list_lookup_insert_eq. by eapply lookup_lt_Some.
Qed.

(** The second half of [save] when it creates a version and all three
    attributes are staged: it reads no version, so nothing is memoized. *)
Lemma save_version_all_staged config nd s i t x r :
  nv_ok None s ->
  is_Some (_new_version (self s)) ∨ (nd = true ∧ need_new_version config = true) ->
  pk (self s) = Some i ->
  _title (self s) = Some (Some t) -> _text (self s) = Some (Some x) ->
  _reason (self s) = Some r ->
  ∃ h, save_version config nd s =
         (Ok tt, {| db := with_versions (versions (db s) ++ [
                            {| vr_id := next_id (vr_id <$> versions (db s)); vr_motion := i;
                               vr_title := Some t; vr_text := Some x; vr_reason := r |}])
                          (db s);
                    heap := h;
                    self := with_new_version None (clear all_attrs (self s)) |})
    ∧ length (heap s) ≤ length h.
Proof.
  intros Hnv Hc Hi Ht Hx Hre. unfold save_version. fold (need_new_version config).
  rewrite bind_eq. unfold gets at 1. cbn beta iota.
  assert (bool_decide (is_Some (_new_version (self s))) || nd && need_new_version config = true) as ->.
  { destruct Hc as [H|[-> ->]]; [by rewrite bool_decide_eq_true_2|by rewrite orb_true_r]. }
  destruct (new_version_spec s Hnv) as (a & w & s1 & E1 & Hw & Hb & Hd1 & Hs1 & Hl1).
  pose proof (lookup_lt_Some _ _ _ Hw) as Ha.
  rewrite bind_eq, E1. rewrite bind_eq. unfold modify_self at 1, modify at 1. cbn beta iota.
  rewrite bind_eq. unfold gets at 1. cbn beta iota.
  set (s2 := with_self (with_new_version None (self s1)) s1).
  assert (Hw2 : heap s2 !! a = Some w) by done.
  rewrite bind_eq, (update_eq _ _ _ _ Hw2).
  set (v0 := {| mv_pk := mv_pk w; mv_motion_id := pk (self s2); mv_title := mv_title w;
                mv_text := mv_text w; mv_reason := mv_reason w |}).
  set (s3 := with_heap (<[a := v0]> (heap s2)) s2).
  assert (Hv3 : heap s3 !! a = Some v0) by (by apply list_lookup_insert_eq).
  assert (Hself3 : self s3 = with_new_version None (self s)).
  { subst s3 s2. simpl. rewrite Hs1. by destruct (self s). }
  assert (Hd3 : db s3 = db s) by done.
  assert (Hl3 : length (heap s) ≤ length (heap s3)).
  { subst s3 s2. simpl. by rewrite length_insert. }
  assert (Hp0 : mv_pk v0 = None) by apply Hb.
  assert (Hm0 : mv_motion_id v0 = Some i).
  { subst v0 s2. simpl. by rewrite Hs1. }
  clearbody s3 v0. clear s2 Hw2.
  rewrite bind_eq. cbn [write_attrs].
  destruct (write_attr_staged a Title (Some t) v0 s3) as (s4 & E4 & Hd4 & Hs4 & Hv4 & Hl4);
    [by rewrite Hself3|done|].
  destruct (write_attr_staged a Text (Some x) (setattr_version Title (Some t) v0) s4) as (s5 & E5 & Hd5 & Hs5 & Hv5 & Hl5);
    [by rewrite Hs4, Hself3|exact Hv4|].
  destruct (write_attr_staged a Reason r
              (setattr_version Text (Some x) (setattr_version Title (Some t) v0)) s5) as (s6 & E6 & Hd6 & Hs6 & Hv6 & Hl6);
    [by rewrite Hs5, Hs4, Hself3|exact Hv5|].
  rewrite bind_eq, E4, bind_eq, E5, bind_eq, E6. unfold mret, M_ret. cbn beta iota.
  rewrite (MotionVersion_save_insert a _ i t x s6 Hv6); [|done..].
  eexists. split.
  - f_equal. f_equal.
    + rewrite Hd6, Hd5, Hd4, Hd3. reflexivity.
    + rewrite Hs6, Hs5, Hs4, Hself3. by destruct (self s).
  - rewrite length_insert. lia.
Qed.

Lemma version_write_not_null config s2 s' :
  version_write config s2 s' -> rows_not_null (db s2) -> rows_not_null (db s').
Proof.
  destruct 1 as [H|i t x _ Ht Hx H|r t x _ _ _ Ht Hx H]; intros Hn; rewrite H.
  - done.
  - intros r0 [Hr| ->%list_elem_of_singleton]%elem_of_app; [by apply Hn|].
    unfold row_of. cbn [vr_title vr_text].
    destruct (written_fields s2 (fresh_version (Some i))) as (_ & _ & -> & -> & _).
    rewrite Ht, Hx. eauto.
  - intros r0 (r1 & -> & Hr1)%list_elem_of_fmap. unfold update_version_row.
    destruct (decide (vr_id r1 = vr_id r)); [|by apply Hn]. cbn [vr_title vr_text].
    destruct (written_fields s2 (instance_of_row r)) as (_ & _ & -> & -> & _).
    rewrite Ht, Hx. eauto.
Qed.

Lemma reachable_not_null s : reachable s -> rows_not_null (db s).
Proof.
  induction 1 as [|config c s Hr IH Hok|s _ IH|r s _ IH Hr|v s _ IH]; try done.
  - by intros r ?%elem_of_nil.
  - assert (c = CSave ∨ c ≠ CSave) as [->|Hc] by (destruct c; (by left) || (by right)).
    + simpl. apply reachable_Inv in Hr. destruct (state_ok_or s) as [Hs|[E Hd]].
      * destruct (save_cases config s Hr Hs)
          as (s0 & s1 & s2 & s' & res & _ & _ & Hp & Hrd & -> & _ & _ & Hw).
        simpl. apply (version_write_not_null _ _ _ Hw).
        intros r0 Hr0. apply IH. by rewrite (reads_db _ _ _ Hrd), (prep_versions _ _ Hp) in Hr0.
      * by rewrite save_no_state.
    + destruct (call_other_tables config c s Hc) as (Hv & _).
      intros r0 Hr0. apply IH. by rewrite Hv in Hr0.
Qed.

Lemma greatest_id_None rows : greatest_id rows = None -> rows = [].
Proof.
  destruct rows as [|r rows]; [done|]. simpl.
  by destruct (greatest_id rows); [destruct (decide _)|].
Qed.

(** ** More on [save] *)

(** X1. The first commit with all three attributes staged.  On a reachable
    store whose motion has no version, [save] with a title, a text and a
    reason staged (title and text not [None]) writes exactly one version
    with these values, of version number 1, clears the staged values and
    leaves no memoized new version behind; so, when no older version is
    selected, a second [save] right after it succeeds and writes
    nothing. *)
Theorem save_first_version_all_staged config s t x r :
  reachable s -> state_ok s ->
  versions_of (pk (self s)) (db s) = [] ->
  _title (self s) = Some (Some t) -> _text (self s) = Some (Some x) ->
  _reason (self s) = Some r ->
  ∃ s' row,
    save config s = (Ok tt, s')
    ∧ versions (db s') = versions (db s) ++ [row]
    ∧ versions_of (pk (self s')) (db s') = [row]
    ∧ vr_title row = Some t ∧ vr_text row = Some x ∧ vr_reason row = r
    ∧ version_number (db s') (instance_of_row row) = PyInt 1
    ∧ (∀ y, staged y (self s') = None)
    ∧ _new_version (self s') = None
    ∧ (_version (self s) = None ->
         ∃ s'', save config s' = (Ok tt, s'') ∧ versions (db s'') = versions (db s')).
Proof.
  intros Hreach Hok He Ht Hx Hre. pose proof (reachable_Inv s Hreach) as HI.
  pose proof (Inv_save config s HI) as HI'.
  destruct HI as [Hdb Hnv Hver].
  destruct (prelude_spec s Hok) as (s0 & s1 & E0 & E1 & Hp).
  destruct (prelude_detail s s0 s1 E0 E1) as (i0 & Hself1 & _).
  destruct (new_data_spec None all_attrs s1 (prepared_nv _ _ Hp Hnv) I
              (prepared_valid _ _ Hp Hver)) as (s2 & E2 & Hr & Hn).
  assert (Hl1 : ledger s1 = None) by (by apply (prepared_no_version s)).
  destruct (prep_pk _ _ Hp) as (i & Hi & _).
  assert (Hi2 : pk (self s2) = Some i) by (by rewrite (reads_pk _ _ _ Hr)).
  assert (Hst : ∀ y, staged y (self s2) = staged y (self s)).
  { intros y. by rewrite (reads_staged _ _ _ y Hr), (prepared_staged _ _ y Hp). }
  destruct (save_version_all_staged config
              (bool_decide (Exists (fun x => cur s1 x ≠ fb s1 x) all_attrs)) s2 i t x r
              (reads_nv _ _ _ Hr)) as (h & E & Hh);
    [left; by apply Hn|done|by rewrite <- Ht; apply (Hst Title)
    |by rewrite <- Hx; apply (Hst Text)|by rewrite <- Hre; apply (Hst Reason)|].
  assert (Esave : save config s = (Ok tt,
            {| db := with_versions (versions (db s2) ++ [
                       {| vr_id := next_id (vr_id <$> versions (db s2)); vr_motion := i;
                          vr_title := Some t; vr_text := Some x; vr_reason := r |}]) (db s2);
               heap := h; self := with_new_version None (clear all_attrs (self s2)) |})).
  { by rewrite (save_after_prelude config s s0 s1 E0 E1), bind_eq, E2. }
  rewrite Esave in HI'. simpl in HI'.
  set (row := {| vr_id := next_id (vr_id <$> versions (db s2)); vr_motion := i;
                 vr_title := Some t; vr_text := Some x; vr_reason := r |}) in *.
  set (s' := {| db := _; heap := h; self := _ |}) in *.
  assert (Hv' : versions (db s') = versions (db s) ++ [row]).
  { subst s'. simpl. by rewrite (reads_db _ _ _ Hr), (prep_versions _ _ Hp). }
  assert (Hnone : versions_of (Some i) (db s) = []).
  { apply greatest_id_None. unfold ledger in Hl1.
    by rewrite Hi, (versions_of_same _ _ _ (prep_versions _ _ Hp)) in Hl1. }
  assert (Hpk' : pk (self s') = Some i) by (subst s'; simpl; rewrite ?pk_clear; exact Hi2).
  assert (Hvo : versions_of (pk (self s')) (db s') = [row]).
  { rewrite Hpk', (versions_of_snoc i (db s) _ _ Hv') by done. by rewrite Hnone. }
  exists s', row. split; [done|]. split; [done|]. split; [done|].
  split; [done|]. split; [done|]. split; [done|]. split; [|split; [|split; [done|]]].
  - rewrite (version_number_split (db s') (versions (db s)) row []); [|done|apply HI'].
    change (filter _ (versions (db s))) with (versions_of (Some i) (db s)).
    by rewrite Hnone.
  - intros y. subst s'. cbn [self]. rewrite staged_with_new_version. apply staged_clear_all.
  - intros Hv. destruct (save_without_changes config s' row HI') as (s'' & E'' & Hv'').
    + unfold state_ok. destruct Hok as [Hne|Hd]; [left|by right].
      subst s'. simpl. rewrite ?state_id_clear, (reads_self _ _ _ Hr). simpl.
      rewrite Hself1. simpl. by rewrite decide_False.
    + intros y. subst s'. cbn [self]. rewrite staged_with_new_version. apply staged_clear_all.
    + done.
    + subst s'. simpl. rewrite ?version_clear, (reads_version _ _ _ Hr), Hself1. done.
    + unfold ledger. by rewrite Hvo.
    + eauto.
Qed.

(** X2. Rewriting the last version.  When the configuration does not ask
    for a new version at every change, no new version is memoized and a
    title that differs from that of the last version is staged, [save]
    rewrites the row of the last version in place: staged values replace
    its fields, the fields that are not staged keep their values, the
    other rows and the number of rows are unchanged. *)
Theorem save_rewrites_last_version config s r t :
  reachable s -> state_ok s ->
  ledger s = Some r -> _new_version (self s) = None ->
  config "motion_create_new_version" ≠ "ALLWASY_CREATE_NEW_VERSION" ->
  _title (self s) = Some (Some t) -> Some t ≠ vr_title r ->
  _text (self s) ≠ Some None ->
  ∃ s', save config s = (Ok tt, s')
    ∧ versions (db s') =
        (fun r' => if decide (vr_id r' = vr_id r)
                   then {| vr_id := vr_id r; vr_motion := vr_motion r;
                           vr_title := Some t;
                           vr_text := default (vr_text r) (_text (self s));
                           vr_reason := default (vr_reason r) (_reason (self s)) |}
                   else r') <$> versions (db s)
    ∧ length (versions (db s')) = length (versions (db s))
    ∧ (∀ y, staged y (self s') = None).
Proof.
  intros Hreach Hok Hl Hnone Hcfg Ht Hne Hx.
  pose proof (reachable_not_null s Hreach) as Hnn.
  destruct (reachable_Inv s Hreach) as [Hdb Hnv Hver].
  destruct (ledger_elem _ _ Hl) as [Hrin Hpk].
  destruct (prelude_spec s Hok) as (s0 & s1 & E0 & E1 & Hp).
  destruct (new_data_spec None all_attrs s1 (prepared_nv _ _ Hp Hnv) I
              (prepared_valid _ _ Hp Hver)) as (s2 & E2 & Hr & _).
  assert (Hl1 : ledger s1 = Some r).
  { unfold ledger. rewrite (prepared_pk_Some _ _ _ Hp Hpk).
    rewrite (versions_of_same _ _ _ (prep_versions _ _ Hp)), <- Hpk. exact Hl. }
  assert (Hfb : ∀ y, fb s1 y = getattr_version y (instance_of_row r)).
  { intros y. unfold fb. by rewrite Hl1. }
  assert (Hnd : bool_decide (Exists (fun x => cur s1 x ≠ fb s1 x) all_attrs) = true).
  { apply bool_decide_eq_true_2, Exists_cons_hd. unfold cur.
    rewrite (prepared_staged _ _ Title Hp), Hfb. simpl. by rewrite Ht. }
  rewrite Hnd in E2.
  assert (Hf : ∀ y, final s2 y = default (getattr_version y (instance_of_row r)) (staged y (self s))).
  { intros y. rewrite (reads_final _ _ _ y Hr). unfold final.
    by rewrite (prepared_staged _ _ y Hp), Hfb. }
  assert (∃ x, final s2 Text = Some x) as [x Hfx].
  { rewrite Hf. simpl. destruct (_text (self s)) as [[x|]|]; simpl; eauto; [done|].
    destruct (Hnn r Hrin) as [_ [x ->]]. eauto. }
  assert (Hnone2 : _new_version (self s2) = None).
  { rewrite (reads_keep _ _ _ Hr) by (rewrite Hl1; eauto). by rewrite (prep_self _ _ Hp). }
  destruct (save_version_last_ok config s2 r t x (reads_nv _ _ _ Hr) Hnone2)
    as (s4 & E4 & Hd4 & Hs4 & Hk).
  { unfold need_new_version. by apply bool_decide_eq_false_2. }
  { by rewrite (reads_ledger _ _ _ Hr). }
  { rewrite Hf. simpl. by rewrite Ht. }
  { done. }
  assert (Hv4 : versions (db s4) =
            (fun r' => if decide (vr_id r' = vr_id r)
                       then {| vr_id := vr_id r; vr_motion := vr_motion r; vr_title := Some t;
                               vr_text := default (vr_text r) (_text (self s));
                               vr_reason := default (vr_reason r) (_reason (self s)) |}
                       else r') <$> versions (db s)).
  { rewrite Hd4. simpl. rewrite (reads_db _ _ _ Hr), (prep_versions _ _ Hp).
    apply list_fmap_ext. intros _ r' _. unfold update_version_row.
    destruct (decide (vr_id r' = vr_id r)); [|done].
    destruct (written_fields s2 (instance_of_row r)) as (_ & -> & -> & -> & ->).
    rewrite !Hf. simpl. by rewrite Ht. }
  exists s4. split; [|split; [done|split; [|done]]].
  - by rewrite (save_after_prelude config s s0 s1 E0 E1), bind_eq, E2.
  - by rewrite Hv4, length_fmap.
Qed.

(** X3. Nothing to commit.  On a reachable store whose motion has a
    version, with nothing staged, no memoized new version and no older
    version selected, [save] succeeds and leaves the versions as they
    are, whatever the configuration. *)
Theorem save_nothing_to_write config s r :
  reachable s -> state_ok s ->
  (∀ x, staged x (self s) = None) ->
  _new_version (self s) = None -> _version (self s) = None ->
  ledger s = Some r ->
  ∃ s', save config s = (Ok tt, s') ∧ versions (db s') = versions (db s)
    ∧ ledger s' = Some r.
Proof.
  intros Hreach Hok Hst Hn Hv Hl. pose proof (reachable_Inv s Hreach) as HI.
  destruct (save_without_changes config s r HI Hok Hst Hn Hv Hl) as (s' & E & Hvs).
  exists s'. split; [done|]. split; [done|].
  destruct (save_cases config s HI Hok)
    as (s0 & s1 & s2 & s'0 & res & _ & _ & Hp & Hr & E' & Hk & _ & _).
  rewrite E in E'. injection E' as _ <-.
  destruct (ledger_elem _ _ Hl) as [_ Hpk].
  unfold ledger. rewrite (kept_pk _ _ Hk), (reads_pk _ _ _ Hr), (prepared_pk_Some _ _ _ Hp Hpk).
  rewrite (versions_of_same _ _ _ Hvs), <- Hpk. exact Hl.
Qed.

(** X4. [save] stores the motion.  On a reachable store, when the motion
    has a state or the registry knows ["default"], the motion afterwards
    has a primary key (the one it had, if any) and a row under that key, and
    both the instance and every row under that key carry the state the
    motion had, or the state of ["default"] if it had none; this holds even
    when writing the version fails.  When the motion has no state and the
    registry does not know ["default"], [save] raises [WorkflowError] and
    stores nothing. *)
Theorem save_stores_motion config s :
  reachable s ->
  (state_ok s ->
     ∃ i, pk (self (save config s).2) = Some i
       ∧ (∀ j, pk (self s) = Some j -> i = j)
       ∧ state_id (self (save config s).2) = state_after_save s
       ∧ {| mr_id := i; mr_state_id := state_after_save s |} ∈ motions (db (save config s).2)
       ∧ ∀ r, r ∈ motions (db (save config s).2) -> mr_id r = i ->
              mr_state_id r = state_after_save s)
  ∧ (state_id (self s) = "" -> workflow.get_state "default" = None ->
       save config s = (Raise WorkflowError, s)).
Proof.
  intros Hreach. split; [|apply save_no_state].
  intros Hok. pose proof (reachable_Inv s Hreach) as HI.
  destruct (save_cases config s HI Hok)
    as (s0 & s1 & s2 & s' & res & E0 & E1 & Hp & Hr & -> & Hk & _ & Hw).
  destruct (prelude_detail s s0 s1 E0 E1) as (i & Hself1 & Hin & Hall).
  fold (state_after_save s) in Hself1, Hin, Hall. simpl.
  destruct (version_write_frame _ _ _ Hw) as (Hm & _).
  rewrite (reads_db _ _ _ Hr) in Hm.
  assert (Hpk1 : pk (self s1) = Some i) by (by rewrite Hself1).
  exists i. split; [|split; [|split; [|split]]].
  - by rewrite (kept_pk _ _ Hk), (reads_pk _ _ _ Hr).
  - intros j Hj. pose proof (prepared_pk_Some _ _ _ Hp Hj). congruence.
  - rewrite (kept_state_id _ _ Hk), (reads_self _ _ _ Hr). simpl. by rewrite Hself1.
  - by rewrite Hm.
  - rewrite Hm. exact Hall.
Qed.

(** ** Reading the motion *)

Lemma sorted_filter (P : VersionRow -> Prop) `{∀ r, Decision (P r)} (rows : list VersionRow) :
  StronglySorted lt (vr_id <$> rows) -> StronglySorted lt (vr_id <$> filter P rows).
Proof.
  induction rows as [|r rows IH]; [done|]. rewrite fmap_cons.
  intros [Hall Hs]%StronglySorted_cons. rewrite filter_cons.
  destruct (decide (P r)); [|by apply IH]. rewrite fmap_cons.
  apply StronglySorted_cons. split; [|by apply IH].
  rewrite Forall_forall in *. intros i (r' & -> & Hr')%list_elem_of_fmap.
  apply Hall. apply list_elem_of_fmap_2. by apply list_elem_of_filter in Hr' as [_ ?].
Qed.

Lemma greatest_id_last rows :
  StronglySorted lt (vr_id <$> rows) -> greatest_id rows = last rows.
Proof.
  induction rows as [|r rows IH]; [done|]. rewrite fmap_cons.
  intros [Hall Hs]%StronglySorted_cons. simpl. rewrite (IH Hs).
  destruct rows as [|r0 rows]; [done|].
  change (last (r :: r0 :: rows)) with (last (r0 :: rows)).
  destruct (last (r0 :: rows)) as [r'|] eqn:E; [|by apply last_None in E].
  rewrite decide_True; [done|]. rewrite Forall_forall in Hall. apply Hall.
  apply list_elem_of_fmap_2. by apply last_Some_elem_of.
Qed.

(** X9. The newest version.  On a reachable store whose motion has
    versions, [last_version] returns a new instance of the version created
    last and memoizes nothing; [get_agenda_title] returns the title of that
    version, whatever is staged or selected; and a getter returns the value
    of that version when its attribute is not staged and no version is
    selected. *)
Theorem last_version_is_newest s rows r :
  reachable s ->
  versions_of (pk (self s)) (db s) = rows ++ [r] ->
  last_version s = (Ok (length (heap s)), with_heap (heap s ++ [instance_of_row r]) s)
  ∧ get_agenda_title s = (Ok (vr_title r), with_heap (heap s ++ [instance_of_row r]) s)
  ∧ ∀ x, staged x (self s) = None -> _version (self s) = None ->
      getattr_self x s
        = (Ok (getattr_version x (instance_of_row r)),
           with_heap (heap s ++ [instance_of_row r]) s).
Proof.
  intros Hreach Hv. apply reachable_Inv in Hreach as [[Hs _ _] _ _].
  assert (Hg : greatest_id (versions_of (pk (self s)) (db s)) = Some r).
  { rewrite greatest_id_last; [by rewrite Hv, last_snoc|].
    unfold versions_of. destruct (pk (self s)); [by apply sorted_filter|constructor]. }
  assert (E : last_version s
              = (Ok (length (heap s)), with_heap (heap s ++ [instance_of_row r]) s)).
  { unfold last_version. msimpl. by rewrite Hg. }
  assert (Hd : deref (length (heap s)) (with_heap (heap s ++ [instance_of_row r]) s)
               = (Ok (instance_of_row r), with_heap (heap s ++ [instance_of_row r]) s)).
  { apply deref_eq. simpl. by apply list_lookup_middle. }
  split; [done|]. split.
  - unfold get_agenda_title. by rewrite bind_eq, E, bind_eq, Hd.
  - intros x Hst Hver. unfold getattr_self, get_version.
    rewrite bind_eq. unfold gets at 1. cbn beta iota. rewrite Hst, bind_eq.
    rewrite bind_eq. unfold gets at 1. cbn beta iota. rewrite Hver, E.
    cbn beta iota. by rewrite bind_eq, Hd.
Qed.

Lemma getattr_self_set_staged x y v s :
  x ≠ y ->
  getattr_self y (with_self (set_staged x (Some v) (self s)) s)
    = ((getattr_self y s).1,
       with_self (set_staged x (Some v) (self (getattr_self y s).2)) (getattr_self y s).2).
Proof.
  intros Hxy. destruct s as [d h [p st ti te re nv ver]].
  unfold getattr_self, get_version, last_version, new_version.
  destruct x, y; try done; msimpl;
    destruct ti as [w1|], te as [w2|], re as [w3|]; try done;
    (destruct ver as [a|]; msimpl; [unfold deref; simpl; by destruct (h !! a)|]);
    (destruct (greatest_id (versions_of p d)) as [r|]; msimpl;
       [unfold deref; simpl; by rewrite list_lookup_middle|]);
    (destruct nv as [a|]; msimpl; unfold deref; simpl;
       [by destruct (h !! a)|by rewrite !list_lookup_middle]).
Qed.

(** X10. Setters and getters.  A getter returns the value its setter
    staged, whatever the versions hold and whichever version is selected,
    and staging touches neither the database nor the objects; and staging
    one attribute does not change what the getter of another returns nor
    what that getter does to the store. *)
Theorem staged_value_is_read (x y : attr) (v : Value) (s : store) :
  (setattr_self x v ;; getattr_self x) s
    = (Ok v, with_self (set_staged x (Some v) (self s)) s)
  ∧ (x ≠ y ->
       (setattr_self x v ;; getattr_self y) s
         = ((getattr_self y s).1, (setattr_self x v (getattr_self y s).2).2)).
Proof.
  split.
  - by destruct x.
  - intros Hxy.
    assert (E : ∀ s0, setattr_self x v s0
                      = (Ok tt, with_self (set_staged x (Some v) (self s0)) s0))
      by (by destruct x).
    by rewrite bind_eq, !E, (getattr_self_set_staged x y v s Hxy).
Qed.

(** X11. Selecting a version.  After [set_version] with the position [n]
    of a version of the motion, [get_version] returns the new instance of
    that version and the getter of an attribute that is not staged returns
    its value, also when it is not the last version; after [set_version]
    with an object, [get_version] returns that object and the getters read
    from it. *)
Theorem set_version_selects (s : store) :
  (∀ (n : nat) r x,
     versions_of (pk (self s)) (db s) !! n = Some r ->
     let s' := {| db := db s; heap := heap s ++ [instance_of_row r];
                  self := with_version (Some (length (heap s))) (self s) |} in
     (set_version (VInt (Z.of_nat n)) ;; get_version) s = (Ok (length (heap s)), s')
     ∧ (staged x (self s) = None ->
          (set_version (VInt (Z.of_nat n)) ;; getattr_self x) s
            = (Ok (getattr_version x (instance_of_row r)), s')))
  ∧ (∀ a o x,
       heap s !! a = Some o ->
       let s' := with_self (with_version (Some a) (self s)) s in
       (set_version (VVersion a) ;; get_version) s = (Ok a, s')
       ∧ (staged x (self s) = None ->
            (set_version (VVersion a) ;; getattr_self x) s = (Ok (getattr_version x o), s'))).
Proof.
  split.
  - intros n r x Hr s'.
    assert (E : set_version (VInt (Z.of_nat n)) s = (Ok tt, s')).
    { unfold set_version. msimpl. rewrite decide_False by lia. by rewrite Nat2Z.id, Hr. }
    split.
    + by rewrite bind_eq, E.
    + intros Hst. rewrite bind_eq, E. unfold getattr_self, get_version.
      rewrite bind_eq. unfold gets at 1. cbn beta iota.
      replace (staged x (self s')) with (@None Value) by (by rewrite <- Hst; destruct x).
      rewrite bind_eq, bind_eq. unfold gets at 1. cbn beta iota. simpl.
      rewrite bind_eq, (deref_eq (length (heap s)) (instance_of_row r)); [done|].
      simpl. by apply list_lookup_middle.
  - intros a o x Ho s'. split; [done|].
    assert (E : set_version (VVersion a) s = (Ok tt, s')) by done.
    intros Hst. rewrite bind_eq, E. unfold getattr_self, get_version.
    rewrite bind_eq. unfold gets at 1. cbn beta iota.
    replace (staged x (self s')) with (@None Value) by (by rewrite <- Hst; destruct x).
    rewrite bind_eq, bind_eq. unfold gets at 1. cbn beta iota. simpl.
    by rewrite bind_eq, (deref_eq a o).
Qed.

(** ** Supporters and states *)

(** X12. In a state whose [support] flag is false, [support] and
    [unsupport] raise [WorkflowError] and leave the store as it was. *)
Theorem support_denied (s : store) (c : workflow.State) (p : Person) :
  workflow.get_state (state_id (self s)) = Some c ->
  workflow.support c = false ->
  support p s = (Raise WorkflowError, s) ∧ unsupport p s = (Raise WorkflowError, s).
Proof.
  intros Hc Hs. unfold support, unsupport, state_attr, get_state. msimpl.
  rewrite Hc. msimpl. rewrite Hs. msimpl. by rewrite Hc.
Qed.

Lemma filter_id {A} (P : A -> Prop) `{∀ x, Decision (P x)} (l : list A) :
  (∀ x, x ∈ l -> P x) -> filter P l = l.
Proof.
  induction l as [|x l IH]; intros Hl; [done|].
  rewrite filter_cons_True by (apply Hl, list_elem_of_here).
  f_equal. apply IH. intros y Hy. by apply Hl, list_elem_of_further.
Qed.

Lemma unsupport_eq s c mid p :
  workflow.get_state (state_id (self s)) = Some c -> workflow.support c = true ->
  pk (self s) = Some mid ->
  unsupport p s =
    (Ok tt, with_db (with_supporters
                       (filter (fun r => ¬ (sr_motion r = mid ∧ sr_person r = p))
                          (supporters (db s))) (db s)) s).
Proof.
  intros Hc Hs Hpk. unfold unsupport, state_attr, get_state. msimpl.
  rewrite Hc. msimpl. by rewrite Hs, Hpk.
Qed.

Lemma is_supporter_eq s mid p :
  pk (self s) = Some mid ->
  is_supporter p s = (Ok (bool_decide ((p, mid) ∈ supporter_key <$> supporters (db s))), s).
Proof.
  intros Hpk. unfold is_supporter. msimpl. rewrite Hpk. simpl. do 2 f_equal.
  apply bool_decide_ext. rewrite supporter_filter_nil.
  destruct (decide ((p, mid) ∈ supporter_key <$> supporters (db s))); naive_solver.
Qed.

(** X13. Withdrawing support.  In a state that allows support,
    [unsupport(p)] on a stored motion succeeds, removes every row of [p]
    for this motion and no other row, so that [is_supporter(p)] is false
    afterwards; it changes nothing when [p] was no supporter, and a second
    [unsupport(p)] changes nothing. *)
Theorem unsupport_removes (s : store) (c : workflow.State) (mid : nat) (p : Person) :
  workflow.get_state (state_id (self s)) = Some c ->
  workflow.support c = true ->
  pk (self s) = Some mid ->
  ∃ s', unsupport p s = (Ok tt, s')
    ∧ is_supporter p s' = (Ok false, s')
    ∧ (∀ r, r ∈ supporters (db s') ↔
            r ∈ supporters (db s) ∧ supporter_key r ≠ (p, mid))
    ∧ ((p, mid) ∉ supporter_key <$> supporters (db s) -> s' = s)
    ∧ unsupport p s' = (Ok tt, s').
Proof.
  intros Hc Hs Hpk. rewrite (unsupport_eq s c mid p Hc Hs Hpk).
  set (s' := with_db _ s).
  assert (Hin : ∀ r, r ∈ supporters (db s') ↔
                  r ∈ supporters (db s) ∧ supporter_key r ≠ (p, mid)).
  { intros r. subst s'. simpl. rewrite list_elem_of_filter. unfold supporter_key.
    split.
    - intros [H1 H2]. split; [done|]. intros [= <- <-]. by apply H1.
    - intros [H1 H2]. split; [|done]. intros [<- <-]. by apply H2. }
  assert (Hno : (p, mid) ∉ supporter_key <$> supporters (db s')).
  { intros (r & Hk & Hr)%list_elem_of_fmap. apply Hin in Hr as [_ Hr]. by apply Hr. }
  assert (Hsame : ∀ s0, pk (self s0) = Some mid ->
            workflow.get_state (state_id (self s0)) = Some c ->
            (p, mid) ∉ supporter_key <$> supporters (db s0) ->
            with_db (with_supporters
                       (filter (fun r => ¬ (sr_motion r = mid ∧ sr_person r = p))
                          (supporters (db s0))) (db s0)) s0 = s0).
  { intros s0 _ _ H0. rewrite filter_id; [by destruct s0 as [[] ? ?]|].
    intros r Hr [Hm Hp]. apply H0. apply list_elem_of_fmap. exists r.
    split; [|done]. unfold supporter_key. congruence. }
  exists s'. split; [done|]. split; [|split; [done|split]].
  - rewrite (is_supporter_eq s' mid p Hpk). by rewrite bool_decide_eq_false_2.
  - intros H. by apply Hsame.
  - rewrite (unsupport_eq s' c mid p Hc Hs Hpk). f_equal. by apply Hsame.
Qed.

(** X14. Support and withdrawal undo each other.  In a state that allows
    support, for a stored motion that [p] does not support, [support(p)]
    makes [is_supporter(p)] true, and [support(p)] followed by
    [unsupport(p)] gives back the store as it was. *)
Theorem support_then_unsupport (s : store) (c : workflow.State) (mid : nat) (p : Person) :
  workflow.get_state (state_id (self s)) = Some c ->
  workflow.support c = true ->
  pk (self s) = Some mid ->
  (p, mid) ∉ supporter_key <$> supporters (db s) ->
  is_supporter p s = (Ok false, s)
  ∧ (support p ;; is_supporter p) s = (Ok true, (support p s).2)
  ∧ (support p ;; unsupport p) s = (Ok tt, s).
Proof.
  intros Hc Hs Hpk Hno.
  split; [by rewrite (is_supporter_eq s mid p Hpk), bool_decide_eq_false_2|].
  rewrite !bind_eq, (support_spec s c mid p Hc Hs Hpk), decide_False by done.
  set (s1 := with_db _ s). cbn [snd]. split.
  - rewrite (is_supporter_eq s1 mid p Hpk), bool_decide_eq_true_2; [done|].
    subst s1. simpl. rewrite fmap_app. apply elem_of_app. right. apply list_elem_of_here.
  - rewrite (unsupport_eq s1 c mid p Hc Hs Hpk). f_equal. subst s1. simpl.
    rewrite filter_app, filter_cons_False, filter_nil, app_nil_r by naive_solver.
    rewrite filter_id; [by destruct s as [[] ? ?]|].
    intros r Hr [Hm Hp]. apply Hno. apply list_elem_of_fmap. exists r.
    split; [|done]. unfold supporter_key. congruence.
Qed.

(** X15. A motion whose [state_id] the registry does not resolve.
    [get_state] returns [None] instead of failing; [set_state] towards a
    state or a token the registry resolves, [support], [unsupport] and
    [create_poll] then fail on the attribute of [None] with
    [AttributeError], not with [WorkflowError], and [set_state] with an
    unknown token raises [WorkflowError]; none of them changes the store. *)
Theorem unresolvable_state (s : store) :
  workflow.get_state (state_id (self s)) = None ->
  get_state s = (Ok None, s)
  ∧ (∀ x n, resolve x = Some n -> set_state x s = (Raise AttributeError, s))
  ∧ (∀ x, resolve x = None -> set_state x s = (Raise WorkflowError, s))
  ∧ (∀ p, support p s = (Raise AttributeError, s))
  ∧ (∀ p, unsupport p s = (Raise AttributeError, s))
  ∧ create_poll s = (Raise AttributeError, s).
Proof.
  intros Hn. split; [|split; [|split; [|split; [|split]]]].
  - unfold get_state. msimpl. by rewrite Hn.
  - intros [n'|t] n Hx; unfold set_state, state_attr, get_state; msimpl; simpl in Hx.
    + by rewrite Hn.
    + rewrite Hx. msimpl. by rewrite Hn.
  - intros [n'|t] Hx; simpl in Hx; [done|].
    unfold set_state. msimpl. by rewrite Hx.
  - intros p. unfold support, state_attr, get_state. msimpl. by rewrite Hn.
  - intros p. unfold unsupport, state_attr, get_state. msimpl. by rewrite Hn.
  - unfold create_poll, state_attr, get_state. msimpl. by rewrite Hn.
Qed.

(** ** Polls and their options *)

Lemma next_id_fresh ids : next_id ids ∉ ids.
Proof. intros H. apply max_list_elem_of_le in H. unfold next_id in H. lia. Qed.

Lemma create_poll_db s :
  db (create_poll s).2 = db s
  ∨ ∃ mid n,
      db (create_poll s).2 =
        with_options (options (db s) ++ [
            {| or_id := next_id (or_id <$> options (db s));
               or_poll := next_id (pr_id <$> polls (db s)) |}])
          (with_polls (polls (db s) ++ [
            {| pr_id := next_id (pr_id <$> polls (db s)); pr_motion := mid;
               pr_poll_number := n |}]) (db s)).
Proof.
  unfold create_poll, state_attr, get_state, MotionPoll_create, set_options. msimpl.
  destruct (workflow.get_state (state_id (self s))) as [st|] eqn:Hst; msimpl; [|by left].
  destruct (workflow.poll st); msimpl; [|by rewrite Hst; left].
  destruct (pk (self s)) as [mid|]; simpl; [|by left].
  destruct (decide _); [by left|]. right. by eexists _, _.
Qed.

Lemma call_options config c s :
  c ≠ CSave -> c ≠ CCreatePoll -> options (db (call config c s).2) = options (db s).
Proof.
  intros Hc Hp. destruct c; try done; simpl.
  - unfold get_title. by rewrite drop_result_db, getattr_self_db.
  - unfold get_text. by rewrite drop_result_db, getattr_self_db.
  - unfold get_reason. by rewrite drop_result_db, getattr_self_db.
  - by rewrite drop_result_db, new_version_db.
  - by rewrite drop_result_db, last_version_db.
  - by rewrite drop_result_db, get_version_db.
  - by rewrite set_version_db.
  - unfold support, state_attr, get_state, is_supporter, MotionSupporter_save. msimpl.
    destruct (workflow.get_state (state_id (self s))) as [st|] eqn:Hst; msimpl; [|done].
    destruct (workflow.support st); msimpl; [|by rewrite Hst].
    destruct (negb _); simpl; [|done]. by destruct (pk (self s)).
  - unfold unsupport, state_attr, get_state. msimpl.
    destruct (workflow.get_state (state_id (self s))) as [st|] eqn:Hst; msimpl; [|done].
    destruct (workflow.support st); msimpl; [|by rewrite Hst].
    by destruct (pk (self s)).
  - by rewrite set_state_db.
  - by rewrite reset_state_db.
Qed.

Lemma filter_eq_absent (l : list nat) x : x ∉ l -> filter (fun y => y = x) l = [].
Proof.
  induction l as [|a l IH]; [done|]. intros [Ha Hl]%not_elem_of_cons.
  rewrite filter_cons_False by done. by apply IH.
Qed.

Lemma count_NoDup (l : list nat) x :
  NoDup l -> x ∈ l -> length (filter (fun y => y = x) l) = 1.
Proof.
  induction 1 as [|a l Ha Hl IH]; [by intros ?%elem_of_nil|].
  intros [->|Hx]%elem_of_cons.
  - rewrite filter_cons_True by done. by rewrite filter_eq_absent.
  - rewrite filter_cons_False; [by apply IH|]. intros ->. done.
Qed.

Lemma filter_fmap_length {A} (f : A -> nat) (l : list A) x :
  length (filter (fun a => f a = x) l) = length (filter (fun y => y = x) (f <$> l)).
Proof.
  induction l as [|a l IH]; [done|]. rewrite fmap_cons, !filter_cons.
  destruct (decide (f a = x)); simpl; by rewrite IH.
Qed.

(** X16. Polls and options go together.  In every reachable store the
    options, in the order of their creation, point to the polls in the
    order of theirs, the poll ids are pairwise distinct, and so every poll
    has exactly one option. *)
Theorem one_option_per_poll (s : store) :
  reachable s ->
  or_poll <$> options (db s) = pr_id <$> polls (db s)
  ∧ NoDup (pr_id <$> polls (db s))
  ∧ ∀ p, p ∈ polls (db s) ->
      length (filter (fun o => or_poll o = pr_id p) (options (db s))) = 1.
Proof.
  intros Hr.
  assert (H : or_poll <$> options (db s) = pr_id <$> polls (db s)
              ∧ NoDup (pr_id <$> polls (db s))).
  { induction Hr as [|config c s Hr IH Hok|s _ IH|r s _ IH Hr|v s _ IH]; try done.
    - split; [done|]. apply NoDup_nil_2.
    - assert (c = CSave ∨ c = CCreatePoll ∨ (c ≠ CSave ∧ c ≠ CCreatePoll))
        as [->|[->|[H1 H2]]].
      { destruct c; auto; right; right; done. }
      + apply reachable_Inv in Hr.
        destruct (save_tables config s Hr) as (_ & Hp & Ho & _).
        simpl in Hp, Ho |- *. by rewrite Hp, Ho.
      + simpl. rewrite drop_result_db.
        destruct (create_poll_db s) as [->|(mid & n & ->)]; [done|]. simpl.
        destruct IH as [IH1 IH2]. rewrite !fmap_app, IH1. split; [done|].
        apply NoDup_app. split; [done|]. split; [|apply NoDup_singleton].
        intros i Hi ->%list_elem_of_singleton. by apply next_id_fresh in Hi.
      + destruct (call_other_tables config c s H1) as (_ & _ & Hp).
        by rewrite (Hp H2), (call_options config c s H1 H2). }
  destruct H as [H1 H2]. split; [done|]. split; [done|].
  intros p Hp. rewrite filter_fmap_length, H1. apply count_NoDup; [done|].
  by apply list_elem_of_fmap_2.
Qed.

End Specs.

(** * The statements on concrete stores *)

Lemma reachable_store_A : reachable (W := demo) store_A.
Proof.
  apply reachable_run_calls; [apply reach_initial|].
  intros c s' Hc. repeat (apply elem_of_cons in Hc as [->|Hc]; [exact I|]).
  by apply elem_of_nil in Hc.
Qed.

Lemma reachable_store_B : reachable (W := demo) store_B.
Proof.
  apply reachable_run_calls; [apply reachable_store_A|].
  intros c s' Hc. repeat (apply elem_of_cons in Hc as [->|Hc]; [exact I|]).
  by apply elem_of_nil in Hc.
Qed.

(** C1, on the code.  A new motion with only a title staged is saved twice
    in a row, nothing being staged or requested in between.  The first
    [save] writes version 1 and, filling the attributes that were not staged
    from [last_version] while the motion still has no version, memoizes a
    second blank [_new_version]; the second [save] finds it and writes
    version 2.  The same happens under either configuration. *)
Theorem save_twice_writes_two_versions :
  Forall (fun config =>
    let s1 := (call (W := demo) config CSave
                 (call (W := demo) config (CSetTitle (Some "A")) initial).2).2 in
    (set_title (Some "A") ;; save (W := demo) config) initial = (Ok tt, s1)
    ∧ length (versions (db s1)) = 1
    ∧ (∀ x, staged x (self s1) = None)
    ∧ is_Some (_new_version (self s1))
    ∧ ∃ s2, save (W := demo) config s1 = (Ok tt, s2)
        ∧ length (versions_of (pk (self s2)) (db s2)) = 2
        ∧ versions (db s2) ≠ versions (db s1))
    [always_new; update_existing].
Proof.
  repeat apply Forall_cons_2; [..|apply Forall_nil_2].
  - vm_compute. split; [reflexivity|]. split; [reflexivity|].
    split; [by intros []|]. split; [eauto|].
    eexists. split; [reflexivity|]. split; [reflexivity|]. discriminate.
  - vm_compute. split; [reflexivity|]. split; [reflexivity|].
    split; [by intros []|]. split; [eauto|].
    eexists. split; [reflexivity|]. split; [reflexivity|]. discriminate.
Qed.

(** The second way to two versions from two commits without staged changes:
    an older version is the active one, so the motion reads other values
    than its last version has, and under the policy of new versions every
    [save] appends a copy of the last version. *)
Lemma save_twice_with_older_version_active :
  let s0 := (set_version (VInt 0) store_B).2 in
  ∃ s1 s2, save (W := demo) always_new s0 = (Ok tt, s1)
    ∧ save (W := demo) always_new s1 = (Ok tt, s2)
    ∧ length (versions (db s0)) = 2
    ∧ length (versions (db s1)) = 3
    ∧ length (versions (db s2)) = 4.
Proof. vm_compute. eexists _, _. repeat split. Qed.

Lemma set_state_iff_next_state_witness :
  workflow.get_state (Registry := demo) (state_id (self store_A)) = Some Pub
  ∧ set_state (W := demo) (SState (Per : @workflow.State demo)) store_A
      = (Ok tt, with_self (with_state_id "per" (self store_A)) store_A)
  ∧ set_state (W := demo) (SState (Acc : @workflow.State demo)) store_A
      = (Raise WorkflowError, store_A).
Proof.
  assert (H : workflow.get_state (Registry := demo) (state_id (self store_A)) = Some Pub)
    by reflexivity.
  destruct (set_state_iff_next_state (W := demo) store_A Pub
              (SState (Per : @workflow.State demo)) H) as (_ & Hyes & _).
  destruct (set_state_iff_next_state (W := demo) store_A Pub
              (SState (Acc : @workflow.State demo)) H) as (_ & _ & Hno).
  split; [exact H|]. split.
  - apply (Hyes Per); [reflexivity|]. vm_compute. by left.
  - apply Hno. intros (n & [= <-] & Hin). vm_compute in Hin.
    repeat (apply elem_of_cons in Hin as [|Hin]; [discriminate|]).
    by apply elem_of_nil in Hin.
Defined.

Lemma create_poll_next_number_witness :
  pr_poll_number <$> polls_of (pk (self store_polls)) (db store_polls) = [1; 2]
  ∧ ∃ p s', create_poll (W := demo) store_polls = (Ok p, s')
      ∧ pr_poll_number p = 3.
Proof.
  split; [reflexivity|].
  destruct (create_poll_next_number (W := demo) store_polls Per 1)
    as (p & s' & E & Hn & _); [reflexivity..|].
  exists p, s'. split; [exact E|]. exact Hn.
Defined.

Lemma create_poll_denied_witness :
  workflow.poll (Registry := demo) Pub = false
  ∧ create_poll (W := demo) store_A = (Raise WorkflowError, store_A).
Proof.
  split; [reflexivity|].
  apply (create_poll_denied (W := demo) store_A Pub); reflexivity.
Defined.

Lemma version_number_unsaved_witness :
  mv_pk (fresh_version (Some 1)) = None
  ∧ version_number (db store_A) (fresh_version (Some 1)) = PyStr "new".
Proof.
  split; [reflexivity|].
  apply (version_number_unsaved (db store_A) (fresh_version (Some 1))). reflexivity.
Defined.

Lemma version_numbers_1_to_N_witness :
  (fun r => version_number (db store_B) (instance_of_row r)) <$> versions_of (Some 1) (db store_B)
    = [PyInt 1; PyInt 2].
Proof.
  destruct (version_numbers_1_to_N (W := demo) store_B reachable_store_B) as [H _].
  exact (H 1).
Defined.

Lemma support_twice_one_record_witness :
  ∃ s1, (support (W := demo) "alice" ;; support (W := demo) "alice") store_A = (Ok tt, s1)
    ∧ length (filter (fun r => sr_person r = "alice" ∧ sr_motion r = 1)
                (supporters (db s1))) = 1.
Proof.
  destruct (support_twice_one_record (W := demo) store_A Pub 1 "alice" reachable_store_A)
    as (s1 & _ & _ & E & Hn); [reflexivity..|].
  exists s1. split; [exact E|exact Hn].
Defined.

Lemma set_version_from_zero_witness :
  versions_of (pk (self store_B)) (db store_B) !! Z.to_nat 1 = Some row_B2
  ∧ length (versions_of (pk (self store_B)) (db store_B)) = 2
  ∧ set_version (VInt 1) store_B =
      (Ok tt, {| db := db store_B; heap := heap store_B ++ [instance_of_row row_B2];
                 self := with_version (Some (length (heap store_B))) (self store_B) |})
  ∧ set_version (VInt 2) store_B = (Raise IndexError, store_B)
  ∧ set_version (VInt (-1)) store_B = (Raise AssertionError, store_B).
Proof.
  assert (Hr : versions_of (pk (self store_B)) (db store_B) !! Z.to_nat 1 = Some row_B2)
    by (vm_compute; reflexivity).
  assert (Hl : length (versions_of (pk (self store_B)) (db store_B)) = 2)
    by (vm_compute; reflexivity).
  split; [exact Hr|]. split; [exact Hl|].
  destruct (set_version_from_zero store_B) as (H & Hpast & Hneg & _).
  split; [apply (H 1%Z row_B2); [lia|exact Hr]|]. split.
  - apply (Hpast 2%Z); [rewrite Hl|]; lia.
  - apply (Hneg (-1)%Z); lia.
Defined.

(** C8, as the claim has it, fails on a motion with one version: ordinal 1,
    the only one in [1, N], raises [IndexError]; ordinal 0, outside [1, N],
    is accepted and selects the first version; and [None], neither an
    integer nor a version, is accepted too. *)
Lemma set_version_ordinal_counterexample :
  length (versions_of (pk (self store_A)) (db store_A)) = 1
  ∧ set_version (VInt 1) store_A = (Raise IndexError, store_A)
  ∧ (∃ s', set_version (VInt 0) store_A = (Ok tt, s'))
  ∧ (∃ s', set_version VNone store_A = (Ok tt, s')).
Proof.
  split; [vm_compute; reflexivity|]. split; [vm_compute; reflexivity|].
  split; eexists; vm_compute; reflexivity.
Defined.

Lemma save_new_version_carries_fields_witness :
  ∃ s' r2,
    (set_title (Some "A2") ;; save (W := demo) always_new) store_A = (Ok tt, s')
    ∧ versions_of (Some 1) (db s') =
        [{| vr_id := 1; vr_motion := 1; vr_title := Some "A"; vr_text := Some "B";
            vr_reason := Some "C" |}; r2]
    ∧ vr_title r2 = Some "A2" ∧ vr_text r2 = Some "B" ∧ vr_reason r2 = Some "C".
Proof.
  destruct (save_new_version_carries_fields (W := demo) always_new store_A 1
              {| vr_id := 1; vr_motion := 1; vr_title := Some "A"; vr_text := Some "B";
                 vr_reason := Some "C" |} reachable_store_A)
    as (s' & r2 & E & _ & Hv & Ht & Hx & Hr & _); try reflexivity.
  { left. vm_compute. discriminate. }
  exists s', r2. split; [exact E|]. split; [exact Hv|]. split; [exact Ht|].
  split; [exact Hx|exact Hr].
Defined.


(** ** Further statements on concrete stores *)

Lemma reachable_store_staged : reachable (W := demo) store_staged.
Proof.
  apply reachable_run_calls; [apply reach_initial|].
  intros c s' Hc. repeat (apply elem_of_cons in Hc as [->|Hc]; [exact I|]).
  by apply elem_of_nil in Hc.
Qed.

Lemma reachable_store_polls : reachable (W := demo) store_polls.
Proof.
  apply reachable_run_calls; [apply reachable_store_A|].
  intros c s' Hc. repeat (apply elem_of_cons in Hc as [->|Hc]; [exact I|]).
  by apply elem_of_nil in Hc.
Qed.

Lemma reachable_store_A_retitled : reachable (W := demo) store_A_retitled.
Proof. apply reach_call; [apply reachable_store_A|exact I]. Qed.

Lemma state_ok_demo s : state_ok (W := demo) s.
Proof. right. vm_compute. eauto. Qed.

Lemma save_first_version_all_staged_witness :
  ∃ s' row, save (W := demo) update_existing store_staged = (Ok tt, s')
    ∧ versions (db s') = versions (db store_staged) ++ [row]
    ∧ vr_title row = Some "A" ∧ vr_text row = Some "B" ∧ vr_reason row = Some "C"
    ∧ version_number (db s') (instance_of_row row) = PyInt 1
    ∧ _new_version (self s') = None.
Proof.
  destruct (save_first_version_all_staged (W := demo) update_existing store_staged
              "A" "B" (Some "C") reachable_store_staged (state_ok_demo _))
    as (s' & row & E & Hv & _ & Ht & Hx & Hr & Hn & _ & Hnv & _);
    try (vm_compute; reflexivity).
  exists s', row. repeat (split; [assumption|]). exact Hnv.
Defined.

Lemma save_rewrites_last_version_witness :
  ∃ s', save (W := demo) update_existing store_A_retitled = (Ok tt, s')
    ∧ versions (db s') =
        [{| vr_id := 1; vr_motion := 1; vr_title := Some "A2"; vr_text := Some "B";
            vr_reason := Some "C" |}].
Proof.
  destruct (save_rewrites_last_version (W := demo) update_existing store_A_retitled
              row_A1 "A2" reachable_store_A_retitled (state_ok_demo _))
    as (s' & E & Hv & _); try (vm_compute; reflexivity); try (vm_compute; discriminate).
  exists s'. split; [exact E|]. rewrite Hv. vm_compute. reflexivity.
Defined.

Lemma save_nothing_to_write_witness :
  ∃ s', save (W := demo) always_new store_A = (Ok tt, s')
    ∧ versions (db s') = versions (db store_A) ∧ ledger s' = Some row_A1.
Proof.
  apply (save_nothing_to_write (W := demo) always_new store_A row_A1 reachable_store_A
           (state_ok_demo _)); try (vm_compute; reflexivity).
  by intros [].
Defined.

Lemma save_stores_motion_witness :
  ∃ i, pk (self (save (W := demo) always_new store_staged).2) = Some i
    ∧ state_id (self (save (W := demo) always_new store_staged).2) = "pub"
    ∧ {| mr_id := i; mr_state_id := "pub" |}
        ∈ motions (db (save (W := demo) always_new store_staged).2).
Proof.
  destruct (save_stores_motion (W := demo) always_new store_staged reachable_store_staged)
    as [H _].
  destruct (H (state_ok_demo _)) as (i & Hpk & _ & Hst & Hin & _).
  exists i. split; [exact Hpk|]. split; [exact Hst|exact Hin].
Defined.

Lemma save_leaves_other_tables_witness :
  supporters (db (save (W := demo) always_new store_polls).2) = supporters (db store_polls)
  ∧ polls (db (save (W := demo) always_new store_polls).2) = polls (db store_polls)
  ∧ options (db (save (W := demo) always_new store_polls).2) = options (db store_polls).
Proof.
  destruct (save_leaves_other_tables (W := demo) always_new store_polls
              reachable_store_polls) as (H1 & H2 & H3 & _).
  split; [exact H1|]. split; [exact H2|exact H3].
Defined.

Lemma versions_append_only_witness :
  (vr_id <$> versions (db store_A_retitled))
    `prefix_of` (vr_id <$> versions (db (call (W := demo) always_new CSave store_A_retitled).2))
  ∧ versions (db store_A_retitled)
      `prefix_of` versions (db (call (W := demo) always_new CSave store_A_retitled).2).
Proof.
  destruct (versions_append_only (W := demo) always_new CSave store_A_retitled
              reachable_store_A_retitled) as (H1 & _ & H3).
  split; [exact H1|]. apply H3. reflexivity.
Defined.

Lemma reachable_integrity_witness :
  NoDup (vr_id <$> versions (db store_B))
  ∧ ∀ r, r ∈ versions (db store_B) -> vr_motion r ∈ mr_id <$> motions (db store_B).
Proof.
  destruct (reachable_integrity (W := demo) store_B reachable_store_B) as (H1 & _ & H3 & _).
  split; [exact H1|exact H3].
Defined.

Lemma poll_numbers_1_to_N_witness :
  pr_poll_number <$> polls_of (Some 1) (db store_polls) = [1; 2].
Proof.
  destruct (poll_numbers_1_to_N (W := demo) store_polls 1 reachable_store_polls) as (H & _).
  rewrite H. vm_compute. reflexivity.
Defined.

Lemma last_version_is_newest_witness :
  versions_of (pk (self store_B)) (db store_B) = [row_A1] ++ [row_B2]
  ∧ get_agenda_title store_B
      = (Ok (vr_title row_B2), with_heap (heap store_B ++ [instance_of_row row_B2]) store_B).
Proof.
  assert (Hv : versions_of (pk (self store_B)) (db store_B) = [row_A1] ++ [row_B2])
    by (vm_compute; reflexivity).
  split; [exact Hv|].
  destruct (last_version_is_newest (W := demo) store_B [row_A1] row_B2
              reachable_store_B Hv) as (_ & H & _).
  exact H.
Defined.

Lemma set_version_selects_witness :
  versions_of (pk (self store_B)) (db store_B) !! 0 = Some row_A1
  ∧ (set_version (VInt (Z.of_nat 0)) ;; getattr_self Title) store_B
      = (Ok (getattr_version Title (instance_of_row row_A1)),
         {| db := db store_B; heap := heap store_B ++ [instance_of_row row_A1];
            self := with_version (Some (length (heap store_B))) (self store_B) |}).
Proof.
  assert (Hr : versions_of (pk (self store_B)) (db store_B) !! 0 = Some row_A1)
    by (vm_compute; reflexivity).
  split; [exact Hr|].
  destruct (set_version_selects store_B) as (H & _).
  destruct (H 0 row_A1 Title Hr) as (_ & H2).
  apply H2. vm_compute. reflexivity.
Defined.

Lemma support_denied_witness :
  workflow.support (Registry := demo) Per = false
  ∧ support (W := demo) "alice" store_polls = (Raise WorkflowError, store_polls)
  ∧ unsupport (W := demo) "alice" store_polls = (Raise WorkflowError, store_polls).
Proof.
  split; [reflexivity|].
  apply (support_denied (W := demo) store_polls Per "alice"); vm_compute; reflexivity.
Defined.

Lemma unsupport_removes_witness :
  ("alice", 1) ∈ supporter_key <$> supporters (db store_A_supported)
  ∧ ∃ s', unsupport (W := demo) "alice" store_A_supported = (Ok tt, s')
      ∧ is_supporter "alice" s' = (Ok false, s')
      ∧ unsupport (W := demo) "alice" s' = (Ok tt, s').
Proof.
  split.
  { assert (supporter_key <$> supporters (db store_A_supported) = [("alice", 1)]) as ->
      by (vm_compute; reflexivity).
    apply list_elem_of_here. }
  destruct (unsupport_removes (W := demo) store_A_supported Pub 1 "alice")
    as (s' & E & Hi & _ & _ & E2); try (vm_compute; reflexivity).
  exists s'. split; [exact E|]. split; [exact Hi|exact E2].
Defined.

Lemma support_then_unsupport_witness :
  (support (W := demo) "alice" ;; is_supporter "alice") store_A
    = (Ok true, (support (W := demo) "alice" store_A).2)
  ∧ (support (W := demo) "alice" ;; unsupport (W := demo) "alice") store_A = (Ok tt, store_A).
Proof.
  destruct (support_then_unsupport (W := demo) store_A Pub 1 "alice")
    as (_ & H1 & H2); try (vm_compute; reflexivity).
  { assert (supporters (db store_A) = []) as -> by (vm_compute; reflexivity).
    apply not_elem_of_nil. }
  split; [exact H1|exact H2].
Defined.

Lemma unresolvable_state_witness :
  workflow.get_state (Registry := demo) (state_id (self initial)) = None
  ∧ get_state (W := demo) initial = (Ok None, initial)
  ∧ create_poll (W := demo) initial = (Raise AttributeError, initial)
  ∧ support (W := demo) "alice" initial = (Raise AttributeError, initial).
Proof.
  assert (H : workflow.get_state (Registry := demo) (state_id (self initial)) = None)
    by reflexivity.
  split; [exact H|].
  destruct (unresolvable_state (W := demo) initial H) as (H1 & _ & _ & H4 & _ & H6).
  split; [exact H1|]. split; [exact H6|exact (H4 "alice")].
Defined.

Lemma one_option_per_poll_witness :
  length (polls (db store_polls)) = 2
  ∧ or_poll <$> options (db store_polls) = pr_id <$> polls (db store_polls)
  ∧ NoDup (pr_id <$> polls (db store_polls)).
Proof.
  split; [vm_compute; reflexivity|].
  destruct (one_option_per_poll (W := demo) store_polls reachable_store_polls)
    as (H1 & H2 & _).
  split; [exact H1|exact H2].
Defined.

Lemma staged_value_is_read_witness :
  Title ≠ Text
  ∧ (setattr_self Title (Some "Z") ;; getattr_self Text) store_B
      = ((getattr_self Text store_B).1,
         (setattr_self Title (Some "Z") (getattr_self Text store_B).2).2).
Proof.
  assert (H : Title ≠ Text) by discriminate.
  split; [exact H|].
  destruct (staged_value_is_read Title Text (Some "Z") store_B) as [_ H2].
  exact (H2 H).
Defined.

(** ** Motions that are not stored *)

Lemma reachable_store_unsaved : reachable (W := demo) store_unsaved.
Proof.
  apply reachable_run_calls; [apply reach_initial|].
  intros c s' Hc. repeat (apply elem_of_cons in Hc as [->|Hc]; [exact I|]).
  by apply elem_of_nil in Hc.
Qed.

Lemma reachable_store_unsaved_per : reachable (W := demo) store_unsaved_per.
Proof.
  apply reachable_run_calls; [apply reachable_store_unsaved|].
  intros c s' Hc. repeat (apply elem_of_cons in Hc as [->|Hc]; [exact I|]).
  by apply elem_of_nil in Hc.
Qed.

(** C5, as the claim has it, fails on a motion that was never saved: the
    store is reachable, the state of the motion allows polls, and
    [create_poll] returns no poll: the motion has no key to attach one to,
    the insertion raises [IntegrityError] and no poll or option is
    written. *)
Lemma create_poll_unsaved_counterexample :
  reachable (W := demo) store_unsaved_per
  ∧ pk (self store_unsaved_per) = None
  ∧ workflow.get_state (Registry := demo) (state_id (self store_unsaved_per)) = Some Per
  ∧ workflow.poll (Registry := demo) Per = true
  ∧ create_poll (W := demo) store_unsaved_per = (Raise IntegrityError, store_unsaved_per)
  ∧ polls (db store_unsaved_per) = [] ∧ options (db store_unsaved_per) = [].
Proof.
  split; [exact reachable_store_unsaved_per|].
  repeat split; vm_compute; reflexivity.
Defined.

(** C7, as the claim has it, fails on a motion that was never saved: the
    store is reachable, the state of the motion allows support, and the
    first [support(p)] raises [IntegrityError], so that the two calls in a
    row end with that error and with no supporter record. *)
Lemma support_unsaved_counterexample :
  reachable (W := demo) store_unsaved
  ∧ pk (self store_unsaved) = None
  ∧ workflow.get_state (Registry := demo) (state_id (self store_unsaved)) = Some Pub
  ∧ workflow.support (Registry := demo) Pub = true
  ∧ support (W := demo) "alice" store_unsaved = (Raise IntegrityError, store_unsaved)
  ∧ (support (W := demo) "alice" ;; support (W := demo) "alice") store_unsaved
      = (Raise IntegrityError, store_unsaved)
  ∧ supporters (db store_unsaved) = [].
Proof.
  split; [exact reachable_store_unsaved|].
  repeat split; vm_compute; reflexivity.
Defined.
